(** * yfinance-collector: the resampling core and the upload orchestration

    A shallow embedding of [collector.py].  The program fetches one day of
    one-minute price bars per ticker, re-aggregates them into coarser
    intervals with [Resampler.resample] and uploads one CSV table per
    (ticker, interval).

    Conventions of the embedding.
    - A Python [str] is the [string] of the bytes of its UTF-8 encoding.
      The regular expression class [\d] matches one character that is a
      Unicode decimal digit: the ten ASCII digits, and the other decimal
      digits, whose table depends on the Unicode version and is a parameter
      of the development ([decimal], on the bytes of one character).
    - A timestamp is the number of nanoseconds of wall-clock time since
      1970-01-01T00:00:00, as an integer ([Z]).
    - A [float64] cell is a primitive float; [nan] is the missing value.
    - The [volume] column is [int64]: an integer with wrap-around sums.
    - A data frame carries its column labels in order and its rows; the
      rows are records whose fields are the eight labelled columns.
    - [DataFrame.resample(rule).agg(d)] is the library call the program is
      built on.  It is embedded for fixed-width rules (minutes, hours,
      days), which are the rules the program uses: the rows are ordered by
      timestamp, the bins are left-closed, labelled by their left edge,
      anchored at the midnight before the first row, and there is one
      output row per bin from the bin of the first row to the bin of the
      last row.  The sum of a float64 column takes in the values that are
      not missing, in index order, starting from 0, by float64 additions
      that are plain or compensated according to the version of the
      library: the way of summing is a parameter of the development
      ([method]), one of the three the library has had.
    - What the process cannot decide (reading the service key, writing and
      removing the temporary file, the storage service accepting an object)
      is asked of an oracle, [succeeds]; a step that does not succeed
      raises. *)

From Stdlib Require Import ZArith List String Ascii Bool Lia Permutation Sorted.
From Stdlib Require Import Floats.
Import ListNotations.

Local Open Scope string_scope.
Local Open Scope Z_scope.

(** ** Strings *)

Definition newline : ascii := ascii_of_nat 10.

Definition is_digit (c : ascii) : bool :=
  let n := nat_of_ascii c in (48 <=? n)%nat && (n <=? 57)%nat.

Definition digit_value (c : ascii) : Z := Z.of_nat (nat_of_ascii c) - 48.

(** [str.replace(old, new)] for one-character [old] and [new]. *)
Fixpoint replace (old new : ascii) (s : string) : string :=
  match s with
  | EmptyString => EmptyString
  | String c rest =>
      String (if Ascii.eqb c old then new else c) (replace old new rest)
  end.

(** The bytes of UTF-8: a byte below 128 is a character of its own, a
    byte from 192 starts a character of two, three or four bytes, and the
    bytes from 128 to 191 continue one. *)
Definition utf8_width (b : ascii) : nat :=
  let n := nat_of_ascii b in
  if (n <? 128)%nat then 1
  else if (n <? 192)%nat then 0
  else if (n <? 224)%nat then 2
  else if (n <? 240)%nat then 3
  else if (n <? 248)%nat then 4
  else 0.

Definition is_continuation (b : ascii) : bool :=
  let n := nat_of_ascii b in (128 <=? n)%nat && (n <? 192)%nat.

(** The next [k] bytes, when they continue a character, and what follows. *)
Fixpoint take_continuation (k : nat) (s : string) : option (string * string) :=
  match k with
  | O => Some (EmptyString, s)
  | S k' =>
      match s with
      | String b rest =>
          if is_continuation b
          then match take_continuation k' rest with
               | Some (c, tail) => Some (String b c, tail)
               | None => None
               end
          else None
      | EmptyString => None
      end
  end.

(** The first character of a string, with what follows it. *)
Definition first_char (s : string) : option (string * string) :=
  match s with
  | EmptyString => None
  | String b rest =>
      match utf8_width b with
      | O => None
      | S k =>
          match take_continuation k rest with
          | Some (c, tail) => Some (String b c, tail)
          | None => None
          end
      end
  end.

(** [str.lower()] on the ASCII letters. *)
Definition lower_char (c : ascii) : ascii :=
  let n := nat_of_ascii c in
  if (65 <=? n)%nat && (n <=? 90)%nat then ascii_of_nat (n + 32) else c.

Fixpoint lower (s : string) : string :=
  match s with
  | EmptyString => EmptyString
  | String c rest => String (lower_char c) (lower rest)
  end.

Definition digit_char (d : Z) : ascii := ascii_of_nat (48 + Z.to_nat d).

(** Decimal rendering of [n] on exactly [width] digits (the low-order
    ones), zero-padded. *)
Fixpoint zero_padded (width : nat) (n : Z) : string :=
  match width with
  | O => EmptyString
  | S w => zero_padded w (n / 10) ++ String (digit_char (n mod 10)) EmptyString
  end.

(** ** Calendar dates and timestamps *)

Record date := Date { year : Z; month : Z; day : Z }.

(** Days from 1970-01-01 to a civil date (proleptic Gregorian calendar). *)
Definition days_from_civil (y m d : Z) : Z :=
  let y' := if m <=? 2 then y - 1 else y in
  let era := y' / 400 in
  let yoe := y' - era * 400 in
  let mp := (m + 9) mod 12 in
  let doy := (153 * mp + 2) / 5 + d - 1 in
  let doe := yoe * 365 + yoe / 4 - yoe / 100 + doy in
  era * 146097 + doe - 719468.

Definition minute_nanos : Z := 60 * 1000000000.
Definition hour_nanos : Z := 60 * minute_nanos.
Definition day_nanos : Z := 24 * hour_nanos.

(** [pd.Timestamp(year, month, day, hour, minute, second).value]. *)
Definition Timestamp (y m d hh mm ss : Z) : Z :=
  days_from_civil y m d * day_nanos
  + hh * hour_nanos + mm * minute_nanos + ss * 1000000000.

(** [Timestamp.normalize()]: the midnight at or before [t]. *)
Definition normalize (t : Z) : Z := t / day_nanos * day_nanos.

(** The civil date that lies [z] days after 1970-01-01. *)
Definition civil_from_days (z : Z) : date :=
  let z := z + 719468 in
  let era := z / 146097 in
  let doe := z - era * 146097 in
  let yoe := (doe - doe / 1460 + doe / 36524 - doe / 146096) / 365 in
  let doy := doe - (365 * yoe + yoe / 4 - yoe / 100) in
  let mp := (5 * doy + 2) / 153 in
  let d := doy - (153 * mp + 2) / 5 + 1 in
  let m := if mp <? 10 then mp + 3 else mp - 9 in
  Date (if m <=? 2 then yoe + era * 400 + 1 else yoe + era * 400) m d.

(** [date + timedelta(days=n)]. *)
Definition add_days (d : date) (n : Z) : date :=
  civil_from_days (days_from_civil (year d) (month d) (day d) + n).

(** [date.strftime(fmt)] for the directives [%Y] (the year on four
    digits), [%m] and [%d] (the month and the day on two digits); every
    other character is copied. *)
Fixpoint strftime (fmt : string) (d : date) : string :=
  match fmt with
  | String "%" (String "Y" rest) => zero_padded 4 (year d) ++ strftime rest d
  | String "%" (String "m" rest) => zero_padded 2 (month d) ++ strftime rest d
  | String "%" (String "d" rest) => zero_padded 2 (day d) ++ strftime rest d
  | String c rest => String c (strftime rest d)
  | EmptyString => EmptyString
  end.

(** ** Cells, bars and frames *)

Definition int64_min : Z := - 2 ^ 63.
Definition int64_max : Z := 2 ^ 63 - 1.

(** Two's-complement wrap-around into the int64 range. *)
Definition wrap64 (z : Z) : Z := (z + 2 ^ 63) mod 2 ^ 64 - 2 ^ 63.

Record Bar := mkBar {
  datetime : Z;
  open : float;
  high : float;
  low : float;
  close : float;
  volume : Z;
  dividends : float;
  stock_splits : float
}.

Record DataFrame := mkFrame {
  columns : list string;
  rows : list Bar
}.

(** ** The aggregations of the data-frame library *)

Definition notnan (x : float) : bool := negb (PrimFloat.is_nan x).

(** [first]: the first value that is not missing; missing when there is none. *)
Fixpoint first_valid (xs : list float) : float :=
  match xs with
  | [] => nan
  | x :: rest => if PrimFloat.is_nan x then first_valid rest else x
  end.

(** [last]: the last value that is not missing; missing when there is none. *)
Definition last_valid (xs : list float) : float := first_valid (rev xs).

(** [max]: missing values are skipped, a later value replaces the running
    maximum when it is strictly greater; missing when nothing was seen. *)
Definition max_step (acc : option float) (x : float) : option float :=
  if PrimFloat.is_nan x then acc
  else match acc with
       | None => Some x
       | Some m => if (m <? x)%float then Some x else Some m
       end.

Definition min_step (acc : option float) (x : float) : option float :=
  if PrimFloat.is_nan x then acc
  else match acc with
       | None => Some x
       | Some m => if (x <? m)%float then Some x else Some m
       end.

Definition or_nan (acc : option float) : float :=
  match acc with Some m => m | None => nan end.

Definition nanmax (xs : list float) : float := or_nan (fold_left max_step xs None).
Definition nanmin (xs : list float) : float := or_nan (fold_left min_step xs None).

(** [sum] of an int64 column: int64 additions, 0 for no value. *)
Definition sum_int64 (xs : list Z) : Z :=
  fold_left (fun acc x => wrap64 (acc + x)) xs 0.

(** The exact sum, for comparison. *)
Definition Zsum (xs : list Z) : Z := fold_right Z.add 0 xs.

(** How the library sums float64 values.  Up to pandas 1.1 the values are
    added one after the other; from pandas 1.2 on the additions are
    compensated (Kahan), and later versions also reset a compensation that
    is not a number. *)
Inductive summation :=
| Sequential
| Kahan
| KahanReset.

(** One step of the compensated sum: the running sum and its compensation
    take in the value [x]. *)
Definition kahan_step (reset : bool) (state : float * float) (x : float) : float * float :=
  let (sumx, compensation) := state in
  let y := PrimFloat.sub x compensation in
  let t := PrimFloat.add sumx y in
  let c := PrimFloat.sub (PrimFloat.sub t sumx) y in
  (t, if reset && PrimFloat.is_nan c then 0%float else c).

(** [sum] of float64 values: the values are taken in, in order, starting
    from 0. *)
Definition float_sum (method : summation) (xs : list float) : float :=
  match method with
  | Sequential => fold_left PrimFloat.add xs 0%float
  | Kahan => fst (fold_left (kahan_step false) xs (0%float, 0%float))
  | KahanReset => fst (fold_left (kahan_step true) xs (0%float, 0%float))
  end.

(** Frequency rules.  [Tick w] is a fixed width of [w] nanoseconds;
    [MonthEnd n] is the calendar rule of [n] months. *)
Inductive offset :=
| Tick (nanos : Z)
| MonthEnd (n : Z).

Fixpoint split_digits (s : string) : list ascii * string :=
  match s with
  | String c rest =>
      if is_digit c
      then let (ds, unit) := split_digits rest in (c :: ds, unit)
      else ([], s)
  | EmptyString => ([], EmptyString)
  end.

Definition number_of (ds : list ascii) : Z :=
  fold_left (fun acc c => 10 * acc + digit_value c) ds 0.

(** [to_offset(rule)] on rules made of an optional count and one of the
    unit letters [T] (minute), [H] (hour), [D] (day), [M] (month end).
    [None] stands for every rule outside this fragment. *)
Definition to_offset (rule : string) : option offset :=
  let (ds, unit) := split_digits rule in
  let n := match ds with [] => 1 | _ => number_of ds end in
  if n <=? 0 then None
  else if String.eqb unit "T" then Some (Tick (n * minute_nanos))
  else if String.eqb unit "H" then Some (Tick (n * hour_nanos))
  else if String.eqb unit "D" then Some (Tick (n * day_nanos))
  else if String.eqb unit "M" then Some (MonthEnd n)
  else None.

(** The index is put in ascending order by a stable sort. *)
Fixpoint insert_bar (b : Bar) (l : list Bar) : list Bar :=
  match l with
  | [] => [b]
  | x :: rest =>
      if datetime b <=? datetime x then b :: l else x :: insert_bar b rest
  end.

Fixpoint sort_index (l : list Bar) : list Bar :=
  match l with
  | [] => []
  | b :: rest => insert_bar b (sort_index rest)
  end.

(** Left edge of the first bin and right edge of the last bin, for rows
    whose first and last timestamps are [first] and [last]. *)
Definition bin_range (w first last : Z) : Z * Z :=
  let origin := normalize first in
  let foffset := (first - origin) mod w in
  let loffset := (last - origin) mod w in
  (first - foffset, last - loffset + w).

(** The left edges of all bins, in order. *)
Definition bin_edges (w : Z) (sorted : list Bar) : list Z :=
  match sorted with
  | [] => []
  | b :: _ =>
      let (lo, hi) := bin_range w (datetime b) (datetime (List.last sorted b)) in
      map (fun k => lo + Z.of_nat k * w) (seq 0 (Z.to_nat ((hi - lo) / w)))
  end.

Definition in_bin (w edge : Z) (b : Bar) : bool :=
  (edge <=? datetime b) && (datetime b <? edge + w).

(** The rows that fall in the bin starting at [edge], in index order. *)
Definition bucket (w : Z) (sorted : list Bar) (edge : Z) : list Bar :=
  filter (in_bin w edge) sorted.

Definition bind {A B : Type} (o : option A) (f : A -> option B) : option B :=
  match o with Some a => f a | None => None end.

Notation "x <- o ;; k" := (bind o (fun x => k))
  (at level 61, o at next level, right associativity).

Fixpoint mapM {A B : Type} (f : A -> option B) (l : list A) : option (list B) :=
  match l with
  | [] => Some []
  | a :: rest => b <- f a ;; bs <- mapM f rest ;; Some (b :: bs)
  end.

Fixpoint lookup {V : Type} (key : string) (d : list (string * V)) : option V :=
  match d with
  | [] => None
  | (k, v) :: rest => if String.eqb k key then Some v else lookup key rest
  end.

(** ** The world outside the process *)

(** What [DataFrame.to_csv(path, index=False)] writes: the header line made
    of the column labels, then one record per row. *)
Record Csv := mkCsv {
  header : list string;
  records : list Bar
}.

Definition to_csv (data : DataFrame) : Csv := mkCsv (columns data) (rows data).

(** One object handed to the storage service. *)
Record Upload := mkUpload {
  upload_bucket : string;
  upload_blob : string;
  upload_content : Csv
}.

(** One line printed by [save_ticker_data]. *)
Record Line := mkLine {
  line_date : date;
  line_ticker : string;
  line_interval : string;
  line_path : string;
  line_rows : nat
}.

Record World := mkWorld {
  uploads : list Upload;
  stdout : list Line
}.

(** Computations of the program: they act on the world and either return
    a value or raise, which ends the run. *)
Definition M (A : Type) : Type := World -> option A * World.

Definition ret {A : Type} (a : A) : M A := fun w => (Some a, w).

Definition raise {A : Type} : M A := fun w => (None, w).

Definition bindM {A B : Type} (m : M A) (k : A -> M B) : M B :=
  fun w => match m w with
           | (Some a, w') => k a w'
           | (None, w') => (None, w')
           end.

Notation "x <~ m ;; k" := (bindM m (fun x => k))
  (at level 61, m at next level, right associativity).
Notation "m ;;; k" := (bindM m (fun _ => k))
  (at level 61, right associativity).

Definition lift {A : Type} (o : option A) : M A := fun w => (o, w).

(** The steps whose outcome lies outside the process. *)
Inductive step :=
| ReadKeyFile
| WriteTempFile (content : Csv)
| UploadObject (u : Upload)
| RemoveTempFile.

(** A step either succeeds or raises, as the oracle says of the world it
    is tried in. *)
Definition attempt (succeeds : step -> World -> bool) (s : step) : M unit :=
  fun w => if succeeds s w then (Some tt, w) else (None, w).

(** [for x in l: body(x)]. *)
Fixpoint for_each {A : Type} (l : list A) (body : A -> M unit) : M unit :=
  match l with
  | [] => ret tt
  | x :: rest => body x ;;; for_each rest body
  end.

(** ** class YFinanceCollector *)

Module YFinanceCollector.

Definition name : string := "yfinance".

Definition columns : list string :=
  [ "datetime"; "open"; "high"; "low";
    "close"; "volume"; "dividends";
    "stock_splits" ].

Record t := mk { interval : string }.

Definition init (collecting_interval : string) : t :=
  mk (lower collecting_interval).

Section Provider.

(** [yf.Ticker(ticker).history(start, end, interval)] followed by
    [reset_index()]: the rows of the provider's table, or [None] when
    the call raises. *)
Variable history : string -> string -> string -> string -> option (list Bar).

Definition collect (self : t) (ticker : string) (d : date) : M DataFrame :=
  let start_date := strftime "%Y-%m-%d" d in
  let end_date := strftime "%Y-%m-%d" (add_days d 1) in
  prices <~ lift (history ticker start_date end_date (interval self)) ;;
  ret (mkFrame columns prices).

End Provider.

End YFinanceCollector.

(** ** class Resampler *)

Module Resampler.

Definition agg_dict : list (string * string) :=
  [ ("open", "first");
    ("high", "max");
    ("low", "min");
    ("close", "last");
    ("volume", "sum");
    ("dividends", "sum");
    ("stock_splits", "sum") ].

Section Digits.

(** The Unicode decimal digits other than 0 to 9, each given by the bytes
    of its UTF-8 encoding. *)
Variable decimal : string -> bool.
Variable method : summation.

(** [\d] on one character. *)
Definition is_decimal (c : string) : bool :=
  match c with
  | String b EmptyString => is_digit b
  | _ => decimal c
  end.

(** [re.match('^\dM$', interval)]: [$] matches at the end of the string
    and also just before a newline that ends the string. *)
Definition re_match_digit_M (interval : string) : bool :=
  match first_char interval with
  | Some (c, rest) =>
      is_decimal c
      && (String.eqb rest "M" || String.eqb rest (String "M" (String newline EmptyString)))
  | None => false
  end.

Definition format_interval (interval : string) : string :=
  if re_match_digit_M interval then replace "M" "T" interval
  else interval.

(** An aggregation named in [agg_dict], on a float64 column. *)
Definition agg_float (how : string) (xs : list float) : option float :=
  if String.eqb how "first" then Some (first_valid xs)
  else if String.eqb how "max" then Some (nanmax xs)
  else if String.eqb how "min" then Some (nanmin xs)
  else if String.eqb how "last" then Some (last_valid xs)
  else if String.eqb how "sum" then Some (float_sum method (filter notnan xs))
  else None.

(** On the int64 column only [sum] keeps the column int64. *)
Definition agg_int64 (how : string) (xs : list Z) : option Z :=
  if String.eqb how "sum" then Some (sum_int64 xs) else None.

Definition agg_float_column (label : string) (xs : list float) : option float :=
  how <- lookup label agg_dict ;; agg_float how xs.

Definition agg_int64_column (label : string) (xs : list Z) : option Z :=
  how <- lookup label agg_dict ;; agg_int64 how xs.

(** [.agg(agg_dict)] on one bin: the output row labelled [edge]. *)
Definition agg (edge : Z) (group : list Bar) : option Bar :=
  o <- agg_float_column "open" (map open group) ;;
  h <- agg_float_column "high" (map high group) ;;
  l <- agg_float_column "low" (map low group) ;;
  c <- agg_float_column "close" (map close group) ;;
  v <- agg_int64_column "volume" (map volume group) ;;
  d <- agg_float_column "dividends" (map dividends group) ;;
  s <- agg_float_column "stock_splits" (map stock_splits group) ;;
  Some (mkBar edge o h l c v d s).

Definition resample (data : DataFrame) (interval : string) : option DataFrame :=
  let interval := format_interval interval in
  let df := sort_index (rows data) in
  match to_offset interval with
  | Some (Tick w) =>
      out <- mapM (fun edge => agg edge (bucket w df edge)) (bin_edges w df) ;;
      Some (mkFrame ("datetime" :: map fst agg_dict) out)
  | _ => None
  end.

End Digits.

End Resampler.

(** ** class GCSManager *)

Module GCSManager.

Record t := mk { bucket_name : string }.

(** The object is in the store. *)
Definition put (u : Upload) : M unit :=
  fun w => (Some tt, mkWorld (uploads w ++ [u])%list (stdout w)).

Section Service.

Variable succeeds : step -> World -> bool.

(** The client is built from the service key file, then the bucket is
    named. *)
Definition init (bucket_name : string) : M t :=
  attempt succeeds ReadKeyFile ;;;
  ret (mk bucket_name).

(** [blob.upload_from_file]: the object is stored, or the call raises and
    nothing is stored. *)
Definition upload (self : t) (data : Csv) (destination_blob_name : string) : M unit :=
  let u := mkUpload (bucket_name self) destination_blob_name data in
  attempt succeeds (UploadObject u) ;;;
  put u.

End Service.

End GCSManager.

(** ** class Collector *)

Module Collector.

Definition date_format : string := "%Y%m%d".
Definition filename_format : string := "{date}.csv".

Definition collect_interval : string := "1M".
Definition intervals : list string := ["1M"; "5M"; "1H"; "1D"].

Record t := mk {
  tickers : list string;
  upload_path : string;
  data_collector : YFinanceCollector.t;
  data_uploader : GCSManager.t
}.

(** [fmt.format(date=value)]: every field [{date}] is replaced. *)
Fixpoint format_date (fmt value : string) : string :=
  match fmt with
  | String "{" (String "d" (String "a" (String "t" (String "e" (String "}" rest))))) =>
      value ++ format_date rest value
  | String c rest => String c (format_date rest value)
  | EmptyString => EmptyString
  end.

Definition print (d : date) (ticker interval save_path : string) (n : nat) : M unit :=
  fun w => (Some tt, mkWorld (uploads w) (stdout w ++ [mkLine d ticker interval save_path n])%list).

Section Run.

Variable decimal : string -> bool.
Variable method : summation.
Variable history : string -> string -> string -> string -> option (list Bar).
Variable succeeds : step -> World -> bool.

Definition init (tickers : list string) (bucket path : string) : M t :=
  uploader <~ GCSManager.init succeeds bucket ;;
  ret (mk tickers path (YFinanceCollector.init collect_interval) uploader).

(** The table is written to a temporary file, the file is handed to the
    uploader, then closed and removed. *)
Definition save (self : t) (data : DataFrame) (path : string) : M unit :=
  attempt succeeds (WriteTempFile (to_csv data)) ;;;
  GCSManager.upload succeeds (data_uploader self) (to_csv data) path ;;;
  attempt succeeds RemoveTempFile.

Definition save_ticker_data (self : t) (data : DataFrame) (d : date)
    (ticker interval : string) : M unit :=
  let filename := format_date filename_format (strftime date_format d) in
  let save_path := upload_path self ++ "/" ++ ticker ++ "/" ++ interval ++ "/" ++ filename in
  print d ticker interval save_path (List.length (rows data)) ;;;
  save self data save_path.

(** The loop over [intervals]; [data] is the variable it reassigns. *)
Fixpoint collect_intervals (self : t) (d : date) (ticker : string)
    (data : DataFrame) (todo : list string) : M unit :=
  match todo with
  | [] => ret tt
  | interval :: rest =>
      data <~ (if negb (String.eqb interval collect_interval)
               then lift (Resampler.resample decimal method data interval)
               else ret data) ;;
      save_ticker_data self data d ticker interval ;;;
      collect_intervals self d ticker data rest
  end.

Definition collect_ticker (self : t) (d : date) (ticker : string) : M unit :=
  data <~ YFinanceCollector.collect history (data_collector self) ticker d ;;
  collect_intervals self d ticker data intervals.

Definition collect (self : t) (d : date) : M unit :=
  for_each (tickers self) (collect_ticker self d).

Definition collect_many (self : t) (dates : list date) : M unit :=
  for_each dates (collect self).

End Run.

End Collector.



(** ** The entry point *)

(** [str.split(sep)] for a separator of one character. *)
Fixpoint split (sep : ascii) (s : string) : list string :=
  match s with
  | EmptyString => [EmptyString]
  | String c rest =>
      if Ascii.eqb c sep then EmptyString :: split sep rest
      else match split sep rest with
           | word :: words => String c word :: words
           | [] => [String c EmptyString]
           end
  end.

Module Main.

Definition default_path : string := "dinero-collector/yfinance".

Section Run.

Variable decimal : string -> bool.
Variable method : summation.
Variable history : string -> string -> string -> string -> option (list Bar).
Variable succeeds : step -> World -> bool.

(** The script, run with [--tickers], [--bucket] and [--path] on the day
    [today]. *)
Definition main (tickers bucket path : string) (today : date) : M unit :=
  let tickers := split " " tickers in
  collector <~ Collector.init succeeds tickers bucket path ;;
  Collector.collect decimal method history succeeds collector (add_days today (-1)).

End Run.

End Main.

(** * The vocabulary of the statements *)

(** ** What the aggregations are to compute *)

(** Field [f] of bar [b] is missing. *)
Definition missing (f : Bar -> float) (b : Bar) : Prop :=
  PrimFloat.is_nan (f b) = true.

(** [v] is field [f] of the first bar of [group] where it is not missing,
    and is missing when there is no such bar. *)
Definition first_of (f : Bar -> float) (group : list Bar) (v : float) : Prop :=
  (exists pre b post,
      group = (pre ++ b :: post)%list /\ Forall (missing f) pre
      /\ PrimFloat.is_nan (f b) = false /\ v = f b)
  \/ (Forall (missing f) group /\ v = nan).

(** [v] is field [f] of the last bar of [group] where it is not missing,
    and is missing when there is no such bar. *)
Definition last_of (f : Bar -> float) (group : list Bar) (v : float) : Prop :=
  (exists pre b post,
      group = (pre ++ b :: post)%list /\ Forall (missing f) post
      /\ PrimFloat.is_nan (f b) = false /\ v = f b)
  \/ (Forall (missing f) group /\ v = nan).

(** [v] is the greatest value of field [f] over the bars of [group] where
    it is not missing, and is missing when there is no such bar. *)
Definition max_of (f : Bar -> float) (group : list Bar) (v : float) : Prop :=
  (exists b, In b group /\ PrimFloat.is_nan (f b) = false /\ v = f b
             /\ forall x, In x group -> PrimFloat.is_nan (f x) = false ->
                          (f x <=? v)%float = true)
  \/ (Forall (missing f) group /\ v = nan).

(** [v] is the least value of field [f] over the bars of [group] where it
    is not missing, and is missing when there is no such bar. *)
Definition min_of (f : Bar -> float) (group : list Bar) (v : float) : Prop :=
  (exists b, In b group /\ PrimFloat.is_nan (f b) = false /\ v = f b
             /\ forall x, In x group -> PrimFloat.is_nan (f x) = false ->
                          (v <=? f x)%float = true)
  \/ (Forall (missing f) group /\ v = nan).

(** What the running maximum is after the values [xs]. *)
Definition max_invariant (xs : list float) (acc : option float) : Prop :=
  match acc with
  | None => Forall (fun x => PrimFloat.is_nan x = true) xs
  | Some m =>
      In m xs /\ PrimFloat.is_nan m = false
      /\ forall y, In y xs -> PrimFloat.is_nan y = false -> (y <=? m)%float = true
  end.

(** What the running minimum is after the values [xs]. *)
Definition min_invariant (xs : list float) (acc : option float) : Prop :=
  match acc with
  | None => Forall (fun x => PrimFloat.is_nan x = true) xs
  | Some m =>
      In m xs /\ PrimFloat.is_nan m = false
      /\ forall y, In y xs -> PrimFloat.is_nan y = false -> (m <=? y)%float = true
  end.

(** ** The output of [resample], row by row *)

(** The row that [agg] builds for the bin labelled [edge]. *)
Definition agg_bar (method : summation) (edge : Z) (group : list Bar) : Bar :=
  mkBar edge
        (first_valid (map open group))
        (nanmax (map high group))
        (nanmin (map low group))
        (last_valid (map close group))
        (sum_int64 (map volume group))
        (float_sum method (filter notnan (map dividends group)))
        (float_sum method (filter notnan (map stock_splits group))).

(** The rows of the output for a bin width of [w] nanoseconds. *)
Definition resample_rows (method : summation) (w : Z) (l : list Bar) : list Bar :=
  map (fun edge => agg_bar method edge (bucket w (sort_index l) edge))
      (bin_edges w (sort_index l)).

(** The bin width, in nanoseconds, that an interval of the program denotes. *)
Definition bin_width (decimal : string -> bool) (interval : string) : Z :=
  match to_offset (Resampler.format_interval decimal interval) with
  | Some (Tick w) => w
  | _ => 0
  end.

(** The output row [r] is made from the group [g] of the bars of [input]:
    [g] holds exactly the bars of [input] whose timestamp lies in the bin
    of width [w] that [r] labels, and every value of [r] is the aggregate
    of its column over [g]. *)
Definition contributes (method : summation) (w : Z) (input : list Bar) (r : Bar)
    (g : list Bar) : Prop :=
  (forall b, In b g <-> In b input /\ datetime r <= datetime b < datetime r + w)
  /\ first_of open g (open r)
  /\ max_of high g (high r)
  /\ min_of low g (low r)
  /\ last_of close g (close r)
  /\ volume r = sum_int64 (map volume g)
  /\ dividends r = float_sum method (filter notnan (map dividends g))
  /\ stock_splits r = float_sum method (filter notnan (map stock_splits g)).

(** The rows are in ascending order of timestamp. *)
Definition chronological (l : list Bar) : Prop :=
  StronglySorted (fun a b => datetime a <= datetime b) l.

(** The bar is earlier than [c]. *)
Definition before (c : Z) (b : Bar) : bool := datetime b <? c.

(** ** What the orchestration is to store *)

(** The object name [save_ticker_data] builds. *)
Definition save_path (self : Collector.t) (d : date) (ticker interval : string) : string :=
  Collector.upload_path self ++ "/" ++ ticker ++ "/" ++ interval ++ "/"
  ++ zero_padded 4 (year d) ++ zero_padded 2 (month d) ++ zero_padded 2 (day d)
  ++ ".csv".

(** The eight characters that stand for the date in the object name. *)
Definition date_stamp (d : date) : string :=
  zero_padded 4 (year d) ++ zero_padded 2 (month d) ++ zero_padded 2 (day d).

(** The characters of a string. *)
Definition chars (s : string) : list ascii := list_ascii_of_string s.

(** What is stored for one (ticker, interval). *)
Definition stored (self : Collector.t) (d : date) (ticker interval : string)
    (data : DataFrame) : Upload :=
  mkUpload (GCSManager.bucket_name (Collector.data_uploader self))
           (save_path self d ticker interval)
           (mkCsv (columns data) (rows data)).

(** What is printed for one (ticker, interval). *)
Definition printed (self : Collector.t) (d : date) (ticker interval : string)
    (data : DataFrame) : Line :=
  mkLine d ticker interval (save_path self d ticker interval) (List.length (rows data)).

(** The four frames of one ticker. *)
Record Stages := mkStages {
  stage_1M : DataFrame;
  stage_5M : DataFrame;
  stage_1H : DataFrame;
  stage_1D : DataFrame
}.

(** The uploads and the printed lines of one ticker, in order. *)
Definition stage_uploads (self : Collector.t) (d : date) (ts : string * Stages) : list Upload :=
  let (ticker, s) := ts in
  [ stored self d ticker "1M" (stage_1M s);
    stored self d ticker "5M" (stage_5M s);
    stored self d ticker "1H" (stage_1H s);
    stored self d ticker "1D" (stage_1D s) ].

Definition stage_lines (self : Collector.t) (d : date) (ts : string * Stages) : list Line :=
  let (ticker, s) := ts in
  [ printed self d ticker "1M" (stage_1M s);
    printed self d ticker "5M" (stage_5M s);
    printed self d ticker "1H" (stage_1H s);
    printed self d ticker "1D" (stage_1D s) ].

(** The provider's answer for one ticker, as [YFinanceCollector.collect]
    asks for it. *)
Definition fetched (history : string -> string -> string -> string -> option (list Bar))
    (self : Collector.t) (d : date) (ticker : string) : option (list Bar) :=
  history ticker (strftime "%Y-%m-%d" d) (strftime "%Y-%m-%d" (add_days d 1))
          (YFinanceCollector.interval (Collector.data_collector self)).

(** [s] is the chain of one ticker: the fetched frame, then each coarser
    frame resampled from the one before it. *)
Definition chained (decimal : string -> bool) (method : summation)
    (history : string -> string -> string -> string -> option (list Bar))
    (self : Collector.t) (d : date) (ticker : string) (s : Stages) : Prop :=
  (exists bars, fetched history self d ticker = Some bars
                /\ stage_1M s = mkFrame YFinanceCollector.columns bars)
  /\ Resampler.resample decimal method (stage_1M s) "5M" = Some (stage_5M s)
  /\ Resampler.resample decimal method (stage_5M s) "1H" = Some (stage_1H s)
  /\ Resampler.resample decimal method (stage_1H s) "1D" = Some (stage_1D s).

(** ** Concrete inputs *)

(** Two one-minute bars of 2024-01-02, at 09:58 and at 10:07: no bar falls
    in the five minutes from 10:00. *)
Definition gap_day : DataFrame :=
  mkFrame YFinanceCollector.columns
    [ mkBar (Timestamp 2024 1 2 9 58 0) 10 11 9 10.5 100 0 0;
      mkBar (Timestamp 2024 1 2 10 7 0) 20 21 19 20.5 200 0 0 ].

(** [gap_day] in five-minute bars, as [resample] returns it. *)
Definition gap_day_5M : DataFrame :=
  mkFrame YFinanceCollector.columns
    [ mkBar (Timestamp 2024 1 2 9 55 0) 10 11 9 10.5 100 0 0;
      mkBar (Timestamp 2024 1 2 10 0 0) nan nan nan nan 0 0 0;
      mkBar (Timestamp 2024 1 2 10 5 0) 20 21 19 20.5 200 0 0 ].

(** Sixty consecutive one-minute bars from 2024-01-02T09:30:00; the
    dividends and stock splits of bar [i] are [d i] and [s i]. *)
Definition sixty_bars (d s : nat -> float) : DataFrame :=
  mkFrame YFinanceCollector.columns
    (map (fun i => mkBar (Timestamp 2024 1 2 9 30 0 + Z.of_nat i * minute_nanos)
                         100 101 99 100.5 1000 (d i) (s i))
         (seq 0 60)).

(** A provider that answers every request with the two bars of [gap_day]. *)
Definition gap_history (ticker start_date end_date interval : string) : option (list Bar) :=
  Some (rows gap_day).


(** ** What a run leaves behind *)

(** The line tells the name and the number of rows of the object. *)
Definition announced (l : Line) (u : Upload) : Prop :=
  line_path l = upload_blob u
  /\ line_rows l = List.length (records (upload_content u)).

(** The object is in the bucket of the collector, has the eight labels as
    its header, and is named after one of the dates, one of the tickers of
    the collector and one of the intervals of the program. *)
Definition well_placed (self : Collector.t) (dates : list date) (u : Upload) : Prop :=
  upload_bucket u = GCSManager.bucket_name (Collector.data_uploader self)
  /\ header (upload_content u) = YFinanceCollector.columns
  /\ exists d ticker interval,
       In d dates /\ In ticker (Collector.tickers self)
       /\ In interval Collector.intervals
       /\ upload_blob u = save_path self d ticker interval.

(** What a line and an object that a run adds together have to do with
    each other. *)
Definition run_step (self : Collector.t) (dates : list date) (l : Line) (u : Upload) : Prop :=
  announced l u /\ well_placed self dates u.

(** Whatever world the computation starts in, it only adds lines and
    objects: the objects go with the first lines, pairwise related by [P],
    and at most one line follows them, that of an object whose saving
    raised; a computation that returns leaves no such line, and its value
    satisfies [Q]. *)
Definition adds {A : Type} (ok : Prop) (P : Line -> Upload -> Prop) (Q : A -> Prop)
    (m : M A) : Prop :=
  forall w,
    exists lines ups pending,
      stdout (snd (m w)) = (stdout w ++ lines ++ pending)%list
      /\ uploads (snd (m w)) = (uploads w ++ ups)%list
      /\ Forall2 P lines ups
      /\ (List.length pending <= 1)%nat
      /\ (ok -> pending = [])
      /\ forall a, fst (m w) = Some a -> pending = [] /\ Q a.

(** The string is one character. *)
Definition one_char (c : string) : Prop := first_char c = Some (c, EmptyString).

(** Every step outside the process succeeds. *)
Definition reliable (succeeds : step -> World -> bool) : Prop :=
  forall s w, succeeds s w = true.

(** The oracle of a run in which every step succeeds. *)
Definition always (s : step) (w : World) : bool := true.

(** The Arabic-Indic digits, U+0660 to U+0669, as a table of decimal
    digits beyond ASCII: the bytes 217 and 160 to 169. *)
Definition arabic_indic (c : string) : bool :=
  match c with
  | String b1 (String b2 EmptyString) =>
      (nat_of_ascii b1 =? 217)%nat
      && (160 <=? nat_of_ascii b2)%nat && (nat_of_ascii b2 <=? 169)%nat
  | _ => false
  end.

(** The collector that the constructor returns. *)
Definition built (tickers : list string) (bucket path : string) : Collector.t :=
  Collector.mk tickers path (YFinanceCollector.init Collector.collect_interval)
               (GCSManager.mk bucket).

(** A provider that knows the ticker AAPL only. *)
Definition aapl_history (ticker start_date end_date interval : string) : option (list Bar) :=
  if String.eqb ticker "AAPL" then Some (rows gap_day) else None.

(** ** Day counts *)

(** For a day [doe] of a 400-year era, the year of the era, the month
    counted from March and the day of the month that [civil_from_days]
    finds are within their bounds and count back to [doe]. *)
Definition era_day_ok (doe : Z) : bool :=
  let yoe := (doe - doe / 1460 + doe / 36524 - doe / 146096) / 365 in
  let doy := doe - (365 * yoe + yoe / 4 - yoe / 100) in
  let mp := (5 * doy + 2) / 153 in
  let d := doy - (153 * mp + 2) / 5 + 1 in
  (0 <=? yoe) && (yoe <=? 399) && (0 <=? mp) && (mp <=? 11)
  && (1 <=? d) && (d <=? 31).

(** [ok] holds on the [len] integers from [lo], checked by halving. *)
Fixpoint holds_on (ok : Z -> bool) (fuel : nat) (lo len : Z) : bool :=
  match fuel with
  | O => len <=? 0
  | S fuel' =>
      if len <=? 0 then true
      else if len =? 1 then ok lo
      else holds_on ok fuel' lo (len / 2)
           && holds_on ok fuel' (lo + len / 2) (len - len / 2)
  end.

(** ** Comparing frames *)

(** Two bars with the same timestamp, prices and volume. *)
Definition same_prices (r r' : Bar) : Prop :=
  datetime r = datetime r' /\ open r = open r' /\ high r = high r'
  /\ low r = low r' /\ close r = close r' /\ volume r = volume r'.

(** No price of the bar is missing. *)
Definition complete (b : Bar) : Prop :=
  PrimFloat.is_nan (open b) = false /\ PrimFloat.is_nan (high b) = false
  /\ PrimFloat.is_nan (low b) = false /\ PrimFloat.is_nan (close b) = false.

(** The low of the bar is at most its open and its close, which are at
    most its high. *)
Definition consistent (b : Bar) : Prop :=
  (low b <=? open b)%float = true /\ (open b <=? high b)%float = true
  /\ (low b <=? close b)%float = true /\ (close b <=? high b)%float = true.

(** The accumulator of [max] and [min] holds no missing value. *)
Definition valid_acc (acc : option float) : Prop :=
  match acc with
  | None => True
  | Some m => PrimFloat.is_nan m = false
  end.

(** [sep.join(words)]. *)
Fixpoint join (sep : ascii) (words : list string) : string :=
  match words with
  | [] => EmptyString
  | [word] => word
  | word :: rest => word ++ String sep (join sep rest)
  end.

(** The character occurs in the string. *)
Fixpoint occurs (c : ascii) (s : string) : bool :=
  match s with
  | EmptyString => false
  | String x rest => Ascii.eqb x c || occurs c rest
  end.

(** How many times the character occurs in the string. *)
Fixpoint count_char (c : ascii) (s : string) : nat :=
  match s with
  | EmptyString => O
  | String x rest => ((if Ascii.eqb x c then 1 else 0) + count_char c rest)%nat
  end.


(** * Properties *)

(** ** Order facts on float64 *)

Ltac sf_cases :=
  repeat match goal with
  | |- context [Z.compare ?a ?b] => destruct (Z.compare_spec a b); subst
  | |- context [PosDef.Pos.compare_cont Eq ?a ?b] =>
      change (PosDef.Pos.compare_cont Eq a b) with (Pos.compare a b);
      destruct (Pos.compare_spec a b); subst
  | H : context [Z.compare ?a ?b] |- _ => destruct (Z.compare_spec a b); subst
  | H : context [PosDef.Pos.compare_cont Eq ?a ?b] |- _ =>
      change (PosDef.Pos.compare_cont Eq a b) with (Pos.compare a b) in H;
      destruct (Pos.compare_spec a b); subst
  end.

Ltac sf_crush :=
  unfold SFleb, SFltb, SFeqb, SFcompare; intros;
  repeat match goal with
  | x : spec_float |- _ => destruct x
  | b : bool |- _ => destruct b
  end; simpl in *; try congruence; try reflexivity;
  sf_cases; simpl in *; try congruence; try reflexivity; try lia.

Lemma SFleb_refl a : a <> S754_nan -> SFleb a a = true.
Proof. sf_crush. Qed.

Lemma SFleb_ltb_trans a b c :
  SFleb a b = true -> SFltb b c = true -> SFleb a c = true.
Proof. sf_crush. Qed.

Lemma SFltb_leb_trans a b c :
  SFltb a b = true -> SFleb b c = true -> SFleb a c = true.
Proof. sf_crush. Qed.

Lemma SFltb_false_leb a b :
  a <> S754_nan -> b <> S754_nan -> SFltb a b = false -> SFleb b a = true.
Proof. sf_crush. Qed.

Lemma is_nan_spec x : PrimFloat.is_nan x = true <-> Prim2SF x = S754_nan.
Proof.
  unfold PrimFloat.is_nan. rewrite eqb_spec. generalize (Prim2SF x).
  sf_crush; split; intros; try congruence; try discriminate.
Qed.

Lemma notnan_spec x : PrimFloat.is_nan x = false -> Prim2SF x <> S754_nan.
Proof.
  intros H E. apply is_nan_spec in E. congruence.
Qed.

Lemma leb_refl x : PrimFloat.is_nan x = false -> (x <=? x)%float = true.
Proof.
  intros H. rewrite leb_spec. apply SFleb_refl, notnan_spec, H.
Qed.

Lemma leb_ltb_trans x y z :
  (x <=? y)%float = true -> (y <? z)%float = true -> (x <=? z)%float = true.
Proof.
  rewrite !leb_spec, ltb_spec. apply SFleb_ltb_trans.
Qed.

Lemma ltb_leb_trans x y z :
  (x <? y)%float = true -> (y <=? z)%float = true -> (x <=? z)%float = true.
Proof.
  rewrite !leb_spec, ltb_spec. apply SFltb_leb_trans.
Qed.

Lemma ltb_false_leb x y :
  PrimFloat.is_nan x = false -> PrimFloat.is_nan y = false ->
  (x <? y)%float = false -> (y <=? x)%float = true.
Proof.
  intros Hx Hy. rewrite leb_spec, ltb_spec.
  apply SFltb_false_leb; apply notnan_spec; assumption.
Qed.

(** ** What the aggregations compute *)

Lemma first_valid_first_of f group : first_of f group (first_valid (map f group)).
Proof.
  induction group as [|b rest IH]; simpl.
  - right. split; [constructor | reflexivity].
  - destruct (PrimFloat.is_nan (f b)) eqn:E.
    + destruct IH as [(pre & x & post & -> & Hpre & Hx & Hv) | [Hall Hv]].
      * left. exists (b :: pre), x, post. repeat split; auto.
      * right. split; auto; constructor; auto.
    + left. exists [], b, rest. repeat split; auto.
Qed.

Lemma Forall_missing_rev f group :
  Forall (missing f) (rev group) -> Forall (missing f) group.
Proof.
  intros H. rewrite <- (rev_involutive group). apply Forall_rev, H.
Qed.

Lemma last_valid_last_of f group : last_of f group (last_valid (map f group)).
Proof.
  unfold last_valid. rewrite <- map_rev.
  destruct (first_valid_first_of f (rev group))
    as [(pre & x & post & E & Hpre & Hx & Hv) | [Hall Hv]].
  - left. exists (rev post), x, (rev pre). repeat split; auto.
    + rewrite <- (rev_involutive group), E, rev_app_distr. simpl.
      rewrite <- app_assoc. reflexivity.
    + apply Forall_rev, Hpre.
  - right. split; auto. apply Forall_missing_rev, Hall.
Qed.

Lemma fold_max_invariant xs : max_invariant xs (fold_left max_step xs None).
Proof.
  induction xs as [|a l IH] using rev_ind; [constructor|].
  rewrite fold_left_app. simpl. unfold max_step at 1.
  destruct (PrimFloat.is_nan a) eqn:Ea.
  - destruct (fold_left max_step l None) as [m|]; simpl in *.
    + destruct IH as (Hin & Hm & Hub). repeat split; auto.
      * apply in_or_app; auto.
      * intros y Hy Hn. apply in_app_or in Hy. destruct Hy as [Hy|[<-|[]]]; auto.
        congruence.
    + apply Forall_app. split; auto.
  - destruct (fold_left max_step l None) as [m|]; simpl in *.
    + destruct IH as (Hin & Hm & Hub).
      destruct (m <? a)%float eqn:Elt; simpl; repeat split; auto.
      * apply in_or_app. right. left. reflexivity.
      * intros y Hy Hn. apply in_app_or in Hy. destruct Hy as [Hy|[<-|[]]].
        -- apply leb_ltb_trans with m; auto.
        -- apply leb_refl; auto.
      * apply in_or_app; auto.
      * intros y Hy Hn. apply in_app_or in Hy. destruct Hy as [Hy|[<-|[]]]; auto.
        apply ltb_false_leb; auto.
    + repeat split; auto.
      * apply in_or_app. right. left. reflexivity.
      * intros y Hy Hn. apply in_app_or in Hy. destruct Hy as [Hy|[<-|[]]].
        -- rewrite Forall_forall in IH. specialize (IH y Hy). congruence.
        -- apply leb_refl; auto.
Qed.

Lemma fold_min_invariant xs : min_invariant xs (fold_left min_step xs None).
Proof.
  induction xs as [|a l IH] using rev_ind; [constructor|].
  rewrite fold_left_app. simpl. unfold min_step at 1.
  destruct (PrimFloat.is_nan a) eqn:Ea.
  - destruct (fold_left min_step l None) as [m|]; simpl in *.
    + destruct IH as (Hin & Hm & Hub). repeat split; auto.
      * apply in_or_app; auto.
      * intros y Hy Hn. apply in_app_or in Hy. destruct Hy as [Hy|[<-|[]]]; auto.
        congruence.
    + apply Forall_app. split; auto.
  - destruct (fold_left min_step l None) as [m|]; simpl in *.
    + destruct IH as (Hin & Hm & Hub).
      destruct (a <? m)%float eqn:Elt; simpl; repeat split; auto.
      * apply in_or_app. right. left. reflexivity.
      * intros y Hy Hn. apply in_app_or in Hy. destruct Hy as [Hy|[<-|[]]].
        -- apply ltb_leb_trans with m; auto.
        -- apply leb_refl; auto.
      * apply in_or_app; auto.
      * intros y Hy Hn. apply in_app_or in Hy. destruct Hy as [Hy|[<-|[]]]; auto.
        apply ltb_false_leb; auto.
    + repeat split; auto.
      * apply in_or_app. right. left. reflexivity.
      * intros y Hy Hn. apply in_app_or in Hy. destruct Hy as [Hy|[<-|[]]].
        -- rewrite Forall_forall in IH. specialize (IH y Hy). congruence.
        -- apply leb_refl; auto.
Qed.

Lemma Forall_missing_map f group :
  Forall (fun x => PrimFloat.is_nan x = true) (map f group) ->
  Forall (missing f) group.
Proof.
  rewrite !Forall_forall. intros H b Hb. apply H, in_map, Hb.
Qed.

Lemma nanmax_max_of f group : max_of f group (nanmax (map f group)).
Proof.
  unfold nanmax. pose proof (fold_max_invariant (map f group)) as H.
  destruct (fold_left max_step (map f group) None) as [m|]; simpl in *.
  - destruct H as (Hin & Hm & Hub). apply in_map_iff in Hin.
    destruct Hin as (b & <- & Hb). left. exists b. repeat split; auto.
    intros x Hx Hn. apply Hub; auto. apply in_map, Hx.
  - right. split; auto. apply Forall_missing_map, H.
Qed.

Lemma nanmin_min_of f group : min_of f group (nanmin (map f group)).
Proof.
  unfold nanmin. pose proof (fold_min_invariant (map f group)) as H.
  destruct (fold_left min_step (map f group) None) as [m|]; simpl in *.
  - destruct H as (Hin & Hm & Hub). apply in_map_iff in Hin.
    destruct Hin as (b & <- & Hb). left. exists b. repeat split; auto.
    intros x Hx Hn. apply Hub; auto. apply in_map, Hx.
  - right. split; auto. apply Forall_missing_map, H.
Qed.

(** ** The output of [resample], row by row *)

Lemma mapM_total {A B : Type} (f : A -> option B) (g : A -> B) (l : list A) :
  (forall a, f a = Some (g a)) -> mapM f l = Some (map g l).
Proof.
  intros H. induction l as [|a l IH]; simpl; [reflexivity|].
  rewrite H, IH. reflexivity.
Qed.

Lemma agg_total method edge group :
  Resampler.agg method edge group = Some (agg_bar method edge group).
Proof. reflexivity. Qed.

Lemma resample_tick decimal method data interval w :
  to_offset (Resampler.format_interval decimal interval) = Some (Tick w) ->
  Resampler.resample decimal method data interval
  = Some (mkFrame YFinanceCollector.columns (resample_rows method w (rows data))).
Proof.
  intros H. unfold Resampler.resample. rewrite H.
  rewrite (mapM_total _ (fun edge =>
             agg_bar method edge (bucket w (sort_index (rows data)) edge))).
  - reflexivity.
  - intros e. apply agg_total.
Qed.

Lemma supported_tick decimal interval :
  In interval Collector.intervals ->
  to_offset (Resampler.format_interval decimal interval) = Some (Tick (bin_width decimal interval))
  /\ 0 < bin_width decimal interval.
Proof.
  intros [<-|[<-|[<-|[<-|[]]]]]; split; reflexivity.
Qed.

Lemma resample_supported decimal method data interval :
  In interval Collector.intervals ->
  Resampler.resample decimal method data interval
  = Some (mkFrame YFinanceCollector.columns
                  (resample_rows method (bin_width decimal interval) (rows data))).
Proof.
  intros H. apply resample_tick, supported_tick, H.
Qed.

Lemma resample_rows_labels method w l :
  map datetime (resample_rows method w l) = bin_edges w (sort_index l).
Proof.
  unfold resample_rows. rewrite map_map. simpl. apply map_id.
Qed.

(** ** The index in ascending order *)

Lemma insert_bar_perm b l : Permutation (insert_bar b l) (b :: l).
Proof.
  induction l as [|x l IH]; simpl; [reflexivity|].
  destruct (datetime b <=? datetime x); [reflexivity|].
  rewrite IH. apply perm_swap.
Qed.

Lemma sort_index_perm l : Permutation (sort_index l) l.
Proof.
  induction l as [|b l IH]; simpl; [reflexivity|].
  rewrite insert_bar_perm. constructor. exact IH.
Qed.

Lemma insert_bar_chronological b l :
  chronological l -> chronological (insert_bar b l).
Proof.
  unfold chronological. induction l as [|x l IH]; simpl; intros H.
  - constructor; constructor.
  - inversion H as [|? ? Hl Hx]; subst.
    destruct (datetime b <=? datetime x) eqn:E.
    + apply Z.leb_le in E. constructor; [exact H|].
      constructor; [exact E|].
      eapply Forall_impl; [|exact Hx]. simpl. intros; lia.
    + apply Z.leb_gt in E. constructor; [apply IH, Hl|].
      eapply Permutation_Forall; [symmetry; apply insert_bar_perm|].
      constructor; [lia | exact Hx].
Qed.

Lemma sort_index_chronological l : chronological (sort_index l).
Proof.
  induction l as [|b l IH]; simpl; [constructor|].
  apply insert_bar_chronological, IH.
Qed.

Lemma sort_index_fixed l : chronological l -> sort_index l = l.
Proof.
  unfold chronological. induction l as [|b l IH]; simpl; intros H; [reflexivity|].
  inversion H as [|? ? Hl Hb]; subst. rewrite (IH Hl).
  destruct l as [|x l]; simpl; [reflexivity|].
  inversion Hb; subst.
  destruct (datetime b <=? datetime x) eqn:E; [reflexivity|].
  apply Z.leb_gt in E. lia.
Qed.

Lemma last_default_irrelevant {A : Type} (l : list A) (x d d' : A) :
  List.last (x :: l) d = List.last (x :: l) d'.
Proof.
  revert x. induction l as [|y l IH]; intros x; [reflexivity|].
  change (List.last (y :: l) d = List.last (y :: l) d'). apply IH.
Qed.

Lemma chronological_bounds b l :
  chronological (b :: l) ->
  Forall (fun x => datetime b <= datetime x <= datetime (List.last (b :: l) b)) (b :: l).
Proof.
  unfold chronological. revert b. induction l as [|y l IH]; intros b H.
  - simpl. constructor; [lia | constructor].
  - inversion H as [|? ? Hl Hb]; subst. inversion Hb as [|? ? Hby Hbl]; subst.
    specialize (IH y Hl).
    assert (Hlast : List.last (b :: y :: l) b = List.last (y :: l) y)
      by apply (last_default_irrelevant l y b y).
    rewrite Hlast. constructor.
    + inversion IH; subst. lia.
    + eapply Forall_impl; [|exact IH]. simpl. intros; lia.
Qed.

(** ** The bins *)

Lemma bin_range_spec w first last :
  0 < w -> first <= last ->
  exists n, 1 <= n
    /\ snd (bin_range w first last) - fst (bin_range w first last) = n * w
    /\ fst (bin_range w first last) <= first
    /\ first < fst (bin_range w first last) + w
    /\ fst (bin_range w first last) + (n - 1) * w <= last
    /\ last < fst (bin_range w first last) + n * w.
Proof.
  intros Hw Hle. unfold bin_range. simpl.
  set (o := normalize first).
  pose proof (Z.div_mod (first - o) w ltac:(lia)) as E1.
  pose proof (Z.div_mod (last - o) w ltac:(lia)) as E2.
  pose proof (Z.mod_pos_bound (first - o) w Hw) as B1.
  pose proof (Z.mod_pos_bound (last - o) w Hw) as B2.
  assert (Hq : (first - o) / w <= (last - o) / w)
    by (apply Z.div_le_mono; lia).
  exists ((last - o) / w - (first - o) / w + 1).
  repeat split; try lia; nia.
Qed.

Lemma bin_count w first last :
  0 < w -> first <= last ->
  exists n : nat,
    (1 <= n)%nat
    /\ Z.to_nat ((snd (bin_range w first last) - fst (bin_range w first last)) / w) = n
    /\ fst (bin_range w first last) <= first
    /\ first < fst (bin_range w first last) + w
    /\ fst (bin_range w first last) + (Z.of_nat n - 1) * w <= last
    /\ last < fst (bin_range w first last) + Z.of_nat n * w.
Proof.
  intros Hw Hle.
  destruct (bin_range_spec w first last Hw Hle) as (n & Hn & E & H1 & H2 & H3 & H4).
  exists (Z.to_nat n). rewrite E, Z.div_mul by lia.
  rewrite Z2Nat.id by lia. repeat split; auto; lia.
Qed.

Lemma filter_before_none c l :
  Forall (fun x => c <= datetime x) l -> filter (before c) l = [].
Proof.
  induction 1 as [|x l Hx Hl IH]; simpl; [reflexivity|].
  unfold before at 1. destruct (datetime x <? c) eqn:E; [|exact IH].
  apply Z.ltb_lt in E. lia.
Qed.

Lemma filter_before_all c l :
  Forall (fun x => datetime x < c) l -> filter (before c) l = l.
Proof.
  induction 1 as [|x l Hx Hl IH]; simpl; [reflexivity|].
  unfold before at 1. destruct (datetime x <? c) eqn:E; [rewrite IH; reflexivity|].
  apply Z.ltb_ge in E. lia.
Qed.

Lemma filter_before_step w c l :
  0 < w -> chronological l ->
  filter (before (c + w)) l = (filter (before c) l ++ bucket w l c)%list.
Proof.
  intros Hw. unfold chronological, bucket.
  induction 1 as [|x l Hl IH Hx]; simpl; [reflexivity|].
  destruct (Z.ltb_spec (datetime x) c) as [E1|E1].
  - assert (B1 : before (c + w) x = true) by (apply Z.ltb_lt; lia).
    assert (B2 : before c x = true) by (apply Z.ltb_lt; lia).
    assert (B3 : in_bin w c x = false).
    { unfold in_bin. apply andb_false_iff. left. apply Z.leb_gt. lia. }
    rewrite B1, B2, B3, IH. reflexivity.
  - assert (B2 : before c x = false) by (apply Z.ltb_ge; lia).
    assert (B3 : in_bin w c x = before (c + w) x).
    { unfold in_bin, before.
      replace (c <=? datetime x) with true by (symmetry; apply Z.leb_le; lia).
      reflexivity. }
    rewrite B2, B3, IH, (filter_before_none c l).
    + simpl. destruct (before (c + w) x); reflexivity.
    + eapply Forall_impl; [|exact Hx]. simpl. intros; lia.
Qed.

Lemma buckets_upto w lo l (n : nat) :
  0 < w -> chronological l -> Forall (fun x => lo <= datetime x) l ->
  List.concat (map (bucket w l) (map (fun k => lo + Z.of_nat k * w) (seq 0 n)))
  = filter (before (lo + Z.of_nat n * w)) l.
Proof.
  intros Hw Hs Hlo. induction n as [|n IH].
  - simpl. rewrite Z.add_0_r. symmetry. apply filter_before_none, Hlo.
  - rewrite seq_S, !map_app, concat_app, IH.
    cbn [map List.concat Nat.add]. rewrite app_nil_r.
    replace (lo + Z.of_nat (S n) * w) with (lo + Z.of_nat n * w + w) by lia.
    symmetry. apply filter_before_step; assumption.
Qed.

(** The bins cut the ordered rows into consecutive runs. *)
Lemma buckets_concat w l :
  0 < w -> chronological l ->
  List.concat (map (bucket w l) (bin_edges w l)) = l.
Proof.
  intros Hw Hs. destruct l as [|b l]; [reflexivity|].
  pose proof (chronological_bounds b l Hs) as Hb.
  unfold bin_edges.
  set (first := datetime b) in *.
  set (last := datetime (List.last (b :: l) b)) in *.
  assert (Hfl : first <= last) by (inversion Hb; subst; lia).
  destruct (bin_count w first last Hw Hfl) as (n & Hn & En & H1 & H2 & H3 & H4).
  destruct (bin_range w first last) as [lo hi] eqn:Er. simpl in *.
  rewrite En, buckets_upto; auto.
  - apply filter_before_all. eapply Forall_impl; [|exact Hb]. simpl. intros; lia.
  - eapply Forall_impl; [|exact Hb]. simpl. intros; lia.
Qed.

(** The labels run from the bin of the first row to the bin of the last
    row, [w] apart. *)
Lemma bin_edges_spec w b l :
  0 < w -> chronological (b :: l) ->
  exists (lo : Z) (n : nat),
    bin_edges w (b :: l) = map (fun k => lo + Z.of_nat k * w) (seq 0 n)
    /\ (1 <= n)%nat
    /\ lo <= datetime b < lo + w
    /\ lo + (Z.of_nat n - 1) * w <= datetime (List.last (b :: l) b)
       < lo + Z.of_nat n * w.
Proof.
  intros Hw Hs. pose proof (chronological_bounds b l Hs) as Hb.
  unfold bin_edges.
  set (first := datetime b) in *.
  set (last := datetime (List.last (b :: l) b)) in *.
  assert (Hfl : first <= last) by (inversion Hb; subst; lia).
  destruct (bin_count w first last Hw Hfl) as (n & Hn & En & H1 & H2 & H3 & H4).
  destruct (bin_range w first last) as [lo hi] eqn:Er. simpl in *.
  exists lo, n. rewrite En. repeat split; auto.
Qed.

(** Two bins of one output never share a timestamp. *)
Lemma bin_edges_disjoint w l e e' t :
  0 < w -> In e (bin_edges w l) -> In e' (bin_edges w l) ->
  e <= t < e + w -> e' <= t < e' + w -> e = e'.
Proof.
  intros Hw He He'. destruct l as [|b l]; [destruct He|].
  unfold bin_edges in *.
  destruct (bin_range w (datetime b) _) as [lo hi].
  apply in_map_iff in He, He'.
  destruct He as (k & <- & _), He' as (k' & <- & _).
  intros A B. assert (Z.of_nat k = Z.of_nat k') by nia. congruence.
Qed.

(** ** int64 sums *)

Lemma wrap64_add_l a x : wrap64 (wrap64 a + x) = wrap64 (a + x).
Proof.
  unfold wrap64. f_equal.
  replace ((a + 2 ^ 63) mod 2 ^ 64 - 2 ^ 63 + x + 2 ^ 63)
    with ((a + 2 ^ 63) mod 2 ^ 64 + x) by lia.
  rewrite Z.add_mod_idemp_l by lia. f_equal. lia.
Qed.

Lemma wrap64_add_r a x : wrap64 (a + wrap64 x) = wrap64 (a + x).
Proof.
  rewrite (Z.add_comm a (wrap64 x)), wrap64_add_l. f_equal. lia.
Qed.

Lemma wrap64_small z : int64_min <= z <= int64_max -> wrap64 z = z.
Proof.
  unfold wrap64, int64_min, int64_max. intros H.
  rewrite Z.mod_small by lia. lia.
Qed.

Lemma fold_wrap64 xs a :
  fold_left (fun acc x => wrap64 (acc + x)) xs (wrap64 a) = wrap64 (a + Zsum xs).
Proof.
  revert a. induction xs as [|x xs IH]; intros a; simpl.
  - f_equal. lia.
  - rewrite wrap64_add_l, IH. f_equal. lia.
Qed.

Lemma sum_int64_wrap xs : sum_int64 xs = wrap64 (Zsum xs).
Proof.
  unfold sum_int64. change 0 with (wrap64 0) at 1. apply fold_wrap64.
Qed.

Lemma Zsum_app xs ys : Zsum (xs ++ ys) = Zsum xs + Zsum ys.
Proof.
  induction xs as [|x xs IH]; simpl; lia.
Qed.

Lemma Zsum_perm xs ys : Permutation xs ys -> Zsum xs = Zsum ys.
Proof.
  induction 1; simpl; lia.
Qed.

Lemma Zsum_concat_volume (groups : list (list Bar)) :
  Zsum (map (fun g => Zsum (map volume g)) groups)
  = Zsum (map volume (List.concat groups)).
Proof.
  induction groups as [|g gs IH]; simpl; [reflexivity|].
  rewrite map_app, Zsum_app, IH. reflexivity.
Qed.

Lemma wrap64_Zsum_wrap (groups : list (list Bar)) :
  wrap64 (Zsum (map (fun g => sum_int64 (map volume g)) groups))
  = wrap64 (Zsum (map (fun g => Zsum (map volume g)) groups)).
Proof.
  induction groups as [|g gs IH]; simpl; [reflexivity|].
  rewrite sum_int64_wrap, wrap64_add_l.
  rewrite <- wrap64_add_r, IH, wrap64_add_r. reflexivity.
Qed.

Lemma Zsum_nonneg xs : Forall (fun x => 0 <= x) xs -> 0 <= Zsum xs.
Proof.
  induction 1; simpl; lia.
Qed.

Lemma Zsum_filter_le (f : Bar -> bool) l :
  Forall (fun b => 0 <= volume b) l ->
  0 <= Zsum (map volume (filter f l)) <= Zsum (map volume l).
Proof.
  induction 1 as [|b l Hb Hl IH]; simpl; [lia|].
  destruct (f b); simpl; lia.
Qed.

Lemma volume_rows method w l :
  map volume (resample_rows method w l)
  = map (fun g => sum_int64 (map volume g))
        (map (bucket w (sort_index l)) (bin_edges w (sort_index l))).
Proof.
  unfold resample_rows. rewrite !map_map. reflexivity.
Qed.

Lemma volume_rows_exact method w l :
  Forall (fun b => 0 <= volume b) l ->
  Zsum (map volume l) <= int64_max ->
  map volume (resample_rows method w l)
  = map (fun g => Zsum (map volume g))
        (map (bucket w (sort_index l)) (bin_edges w (sort_index l))).
Proof.
  intros Hpos Hmax. rewrite volume_rows, !map_map.
  apply map_ext. intros e. rewrite sum_int64_wrap. apply wrap64_small.
  assert (Hs : Forall (fun b => 0 <= volume b) (sort_index l))
    by (eapply Permutation_Forall; [symmetry; apply sort_index_perm | exact Hpos]).
  pose proof (Zsum_filter_le (in_bin w e) (sort_index l) Hs) as B.
  rewrite (Zsum_perm (map volume (sort_index l)) (map volume l)) in B
    by (apply Permutation_map, sort_index_perm).
  unfold bucket, int64_min. lia.
Qed.

Example gap_day_resampled :
  Resampler.resample arabic_indic KahanReset gap_day "5M" = Some gap_day_5M.
Proof. vm_compute. reflexivity. Qed.

(** ** The resampling contract *)

Lemma Forall2_map_both {A B C : Type} (P : B -> C -> Prop) (f : A -> B) (g : A -> C) l :
  (forall x, In x l -> P (f x) (g x)) -> Forall2 P (map f l) (map g l).
Proof.
  induction l as [|x l IH]; intros H; cbn [map]; constructor.
  - apply H. left. reflexivity.
  - apply IH. intros y Hy. apply H. right. exact Hy.
Qed.

(** C5. For every series and every interval of the program, the output
    rows come each from a group of input bars, and the groups partition
    the input: the group of a row holds exactly the input bars whose
    timestamp lies in the bin of the row, and the values of the row are
    computed from the bars of its group and from no other; the groups,
    taken in the order of the rows, hold the input bars in chronological
    order, each bar once, so that no bar is dropped and none counted
    twice; and every input bar lies in the bin of exactly one output
    row. *)
Theorem resample_partitions_input decimal method data interval :
  In interval Collector.intervals ->
  exists out groups,
    Resampler.resample decimal method data interval = Some out
    /\ Forall2 (contributes method (bin_width decimal interval) (rows data)) (rows out) groups
    /\ List.concat groups = sort_index (rows data)
    /\ Permutation (List.concat groups) (rows data)
    /\ forall b, In b (rows data) ->
         exists r, In r (rows out)
           /\ in_bin (bin_width decimal interval) (datetime r) b = true
           /\ forall r', In r' (rows out) ->
                in_bin (bin_width decimal interval) (datetime r') b = true ->
                datetime r' = datetime r.
Proof.
  intros Hin. destruct (supported_tick decimal interval Hin) as [Ht Hw].
  set (w := bin_width decimal interval) in *.
  set (sorted := sort_index (rows data)).
  exists (mkFrame YFinanceCollector.columns (resample_rows method w (rows data))),
         (map (bucket w sorted) (bin_edges w sorted)).
  split; [apply resample_supported, Hin|]. cbn [rows].
  assert (Hcat : List.concat (map (bucket w sorted) (bin_edges w sorted)) = sorted)
    by (apply buckets_concat; [exact Hw | apply sort_index_chronological]).
  split; [|split; [exact Hcat|split; [rewrite Hcat; apply sort_index_perm|]]].
  - unfold resample_rows. fold sorted. apply Forall2_map_both. intros e _.
    unfold contributes. cbn [datetime open high low close volume dividends
                             stock_splits agg_bar].
    split.
    { intros b. unfold bucket. rewrite filter_In. unfold in_bin.
      rewrite andb_true_iff, Z.leb_le, Z.ltb_lt.
      split; intros [Hb Hr]; (split; [|exact Hr]).
      - eapply Permutation_in; [apply sort_index_perm | exact Hb].
      - eapply Permutation_in; [symmetry; apply sort_index_perm | exact Hb]. }
    split; [apply first_valid_first_of|]. split; [apply nanmax_max_of|].
    split; [apply nanmin_min_of|]. split; [apply last_valid_last_of|].
    repeat split.
  - intros b Hb.
    assert (Hb' : In b sorted)
      by (eapply Permutation_in; [symmetry; apply sort_index_perm | exact Hb]).
    rewrite <- Hcat in Hb'. apply in_concat in Hb'.
    destruct Hb' as (g & Hg & Hbg). apply in_map_iff in Hg.
    destruct Hg as (e & <- & He). unfold bucket in Hbg. apply filter_In in Hbg.
    destruct Hbg as [_ Hbin].
    assert (Hlab : forall x, In x (resample_rows method w (rows data)) ->
                             In (datetime x) (bin_edges w sorted)).
    { intros x Hx. unfold sorted. rewrite <- (resample_rows_labels method).
      apply in_map, Hx. }
    unfold sorted in He. rewrite <- (resample_rows_labels method) in He.
    apply in_map_iff in He. destruct He as (r & <- & Hr).
    exists r. split; [exact Hr|]. split; [exact Hbin|].
    intros r' Hr' Hbin'. unfold in_bin in Hbin, Hbin'.
    apply andb_true_iff in Hbin, Hbin'.
    destruct Hbin as [A1 A2], Hbin' as [B1 B2].
    apply Z.leb_le in A1, B1. apply Z.ltb_lt in A2, B2.
    eapply (bin_edges_disjoint w sorted _ _ (datetime b)); eauto.
Qed.

Lemma resample_partitions_input_witness :
  In "5M" Collector.intervals
  /\ exists out groups,
       Resampler.resample arabic_indic KahanReset gap_day "5M" = Some out
       /\ Forall2 (contributes KahanReset (bin_width arabic_indic "5M") (rows gap_day))
                  (rows out) groups
       /\ Permutation (List.concat groups) (rows gap_day).
Proof.
  assert (H : In "5M" Collector.intervals) by (simpl; auto).
  split; [exact H|].
  destruct (resample_partitions_input arabic_indic KahanReset gap_day "5M" H)
    as (out & groups & E & F & _ & P & _).
  exists out, groups. split; [exact E|]. split; [exact F | exact P].
Defined.

(** C4. For every series and every interval of the program, the int64 sum
    of the volume column of the output equals the int64 sum of the volume
    column of the input; and when the input volumes are non-negative and
    their exact total fits in int64, the exact totals agree as well. *)
Theorem resample_conserves_volume decimal method data interval :
  In interval Collector.intervals ->
  exists out,
    Resampler.resample decimal method data interval = Some out
    /\ sum_int64 (map volume (rows out)) = sum_int64 (map volume (rows data))
    /\ (Forall (fun b => 0 <= volume b) (rows data) ->
        Zsum (map volume (rows data)) <= int64_max ->
        Zsum (map volume (rows out)) = Zsum (map volume (rows data))).
Proof.
  intros Hin. destruct (supported_tick decimal interval Hin) as [Ht Hw].
  eexists. split; [apply resample_supported, Hin|]. simpl.
  assert (Hcat : List.concat (map (bucket (bin_width decimal interval) (sort_index (rows data)))
                                  (bin_edges (bin_width decimal interval) (sort_index (rows data))))
                 = sort_index (rows data))
    by (apply buckets_concat; [exact Hw | apply sort_index_chronological]).
  assert (Hperm : Zsum (map volume (sort_index (rows data))) = Zsum (map volume (rows data)))
    by (apply Zsum_perm, Permutation_map, sort_index_perm).
  split.
  - rewrite !sum_int64_wrap, volume_rows, wrap64_Zsum_wrap, Zsum_concat_volume.
    rewrite Hcat, Hperm. reflexivity.
  - intros Hpos Hmax. rewrite volume_rows_exact by assumption.
    rewrite Zsum_concat_volume, Hcat. exact Hperm.
Qed.

Lemma resample_conserves_volume_witness :
  In "5M" Collector.intervals
  /\ exists out,
       Resampler.resample arabic_indic KahanReset gap_day "5M" = Some out
       /\ sum_int64 (map volume (rows out)) = 300
       /\ Zsum (map volume (rows out)) = 300.
Proof.
  assert (H : In "5M" Collector.intervals) by (simpl; auto).
  split; [exact H|].
  destruct (resample_conserves_volume arabic_indic KahanReset gap_day "5M" H)
    as (out & E & S1 & S2).
  exists out. split; [exact E|]. split.
  - rewrite S1. reflexivity.
  - rewrite S2.
    + reflexivity.
    + repeat constructor; simpl; lia.
    + vm_compute. discriminate.
Defined.

(** C8. For every interval of the program, resampling a frame without rows
    returns a frame without rows: the call returns, it does not raise. *)
Theorem resample_empty decimal method labels interval :
  In interval Collector.intervals ->
  exists out,
    Resampler.resample decimal method (mkFrame labels []) interval = Some out
    /\ rows out = [].
Proof.
  intros Hin. eexists. split; [apply resample_supported, Hin|]. reflexivity.
Qed.

Lemma resample_empty_witness :
  In "1D" Collector.intervals
  /\ exists out,
       Resampler.resample arabic_indic KahanReset (mkFrame YFinanceCollector.columns []) "1D" = Some out
       /\ rows out = [].
Proof.
  assert (H : In "1D" Collector.intervals) by (simpl; auto 6).
  split; [exact H|].
  exact (resample_empty arabic_indic KahanReset YFinanceCollector.columns "1D" H).
Defined.

(** C2, as the specification states it, fails: [gap_day] in five-minute
    bars has a row for the bin from 10:00, which holds no input bar; the
    row is not omitted, it carries missing prices and a zero volume. *)
Lemma empty_bin_is_kept :
  exists out r,
    Resampler.resample arabic_indic KahanReset gap_day "5M" = Some out
    /\ In r (rows out)
    /\ bucket (bin_width arabic_indic "5M") (sort_index (rows gap_day)) (datetime r) = []
    /\ datetime r = Timestamp 2024 1 2 10 0 0
    /\ PrimFloat.is_nan (open r) = true
    /\ volume r = 0.
Proof.
  exists gap_day_5M, (mkBar (Timestamp 2024 1 2 10 0 0) nan nan nan nan 0 0 0).
  split; [exact gap_day_resampled|].
  split; [simpl; auto|].
  repeat split; vm_compute; reflexivity.
Qed.

(** C2, amended. For every series and every interval of the program, the
    output has one row per bin from the bin of the earliest input bar to
    the bin of the latest input bar, in order and one bin width apart, and
    no row outside that range (an input without rows gives an output
    without rows); a bin of that range that holds no input bar still has
    its row, whose open, high, low and close are missing and whose volume
    is 0. *)
Theorem resample_rows_cover_range decimal method data interval :
  In interval Collector.intervals ->
  exists out,
    Resampler.resample decimal method data interval = Some out
    /\ (rows data = [] -> rows out = [])
    /\ (forall first rest, sort_index (rows data) = first :: rest ->
        exists (lo : Z) (n : nat),
          map datetime (rows out)
          = map (fun k => lo + Z.of_nat k * bin_width decimal interval) (seq 0 n)
          /\ (1 <= n)%nat
          /\ lo <= datetime first < lo + bin_width decimal interval
          /\ lo + (Z.of_nat n - 1) * bin_width decimal interval
             <= datetime (List.last (first :: rest) first)
             < lo + Z.of_nat n * bin_width decimal interval)
    /\ (forall r, In r (rows out) ->
        bucket (bin_width decimal interval) (sort_index (rows data)) (datetime r) = [] ->
        PrimFloat.is_nan (open r) = true /\ PrimFloat.is_nan (high r) = true
        /\ PrimFloat.is_nan (low r) = true /\ PrimFloat.is_nan (close r) = true
        /\ volume r = 0).
Proof.
  intros Hin. destruct (supported_tick decimal interval Hin) as [Ht Hw].
  eexists. split; [apply resample_supported, Hin|]. simpl.
  split; [|split].
  - intros ->. reflexivity.
  - intros first rest E. rewrite resample_rows_labels, E.
    apply bin_edges_spec; [exact Hw|]. rewrite <- E.
    apply sort_index_chronological.
  - intros r Hr Hempty. unfold resample_rows in Hr. apply in_map_iff in Hr.
    destruct Hr as (e & <- & He). simpl in *. rewrite Hempty.
    repeat split; reflexivity.
Qed.

Lemma resample_rows_cover_range_witness :
  In "5M" Collector.intervals
  /\ exists out,
       Resampler.resample arabic_indic KahanReset gap_day "5M" = Some out
       /\ forall r, In r (rows out) ->
            bucket (bin_width arabic_indic "5M") (sort_index (rows gap_day)) (datetime r) = [] ->
            PrimFloat.is_nan (open r) = true /\ volume r = 0.
Proof.
  assert (H : In "5M" Collector.intervals) by (simpl; auto).
  split; [exact H|].
  destruct (resample_rows_cover_range arabic_indic KahanReset gap_day "5M" H)
    as (out & E & _ & _ & N).
  exists out. split; [exact E|].
  intros r Hr Hb. destruct (N r Hr Hb) as (A & _ & _ & _ & B). split; assumption.
Defined.

(** C1, as the specification states it, fails: in the hourly resampling of
    [gap_day_5M] (the second stage of the chain on [gap_day]) the bin from
    10:00 starts with the bar of 10:00, whose open is missing, and the
    output row of that bin has open 20, the open of the bar of 10:05. *)
Lemma open_skips_missing_bar :
  exists out r b rest,
    Resampler.resample arabic_indic KahanReset gap_day_5M "1H" = Some out
    /\ In r (rows out)
    /\ bucket (bin_width arabic_indic "1H") (sort_index (rows gap_day_5M)) (datetime r) = b :: rest
    /\ open r <> open b.
Proof.
  exists (mkFrame YFinanceCollector.columns
            [ mkBar (Timestamp 2024 1 2 9 0 0) 10 11 9 10.5 100 0 0;
              mkBar (Timestamp 2024 1 2 10 0 0) 20 21 19 20.5 200 0 0 ]),
         (mkBar (Timestamp 2024 1 2 10 0 0) 20 21 19 20.5 200 0 0),
         (mkBar (Timestamp 2024 1 2 10 0 0) nan nan nan nan 0 0 0),
         [ mkBar (Timestamp 2024 1 2 10 5 0) 20 21 19 20.5 200 0 0 ].
  split; [vm_compute; reflexivity|].
  split; [simpl; auto|].
  split; [vm_compute; reflexivity|].
  simpl. intros E. apply (f_equal PrimFloat.is_nan) in E.
  vm_compute in E. discriminate.
Qed.

(** C1, amended. For every series and every interval of the program, each
    output row aggregates the bars of its bin, taken in chronological
    order: open is the open of the first bar of the bin whose open is not
    missing, high is the greatest high that is not missing, low is the
    least low that is not missing, close is the close of the last bar of
    the bin whose close is not missing (each of the four is missing when
    the bin has no such bar); volume is the int64 sum of the volumes of the
    bin, and dividends and stock_splits are each the float64 sum of the
    values of the bin that are not missing, taken in chronological order
    starting from 0, as the library sums them. *)
Theorem resample_aggregates_each_bin decimal method data interval :
  In interval Collector.intervals ->
  exists out,
    Resampler.resample decimal method data interval = Some out
    /\ forall r, In r (rows out) ->
         let group := bucket (bin_width decimal interval) (sort_index (rows data)) (datetime r) in
         first_of open group (open r)
         /\ max_of high group (high r)
         /\ min_of low group (low r)
         /\ last_of close group (close r)
         /\ volume r = sum_int64 (map volume group)
         /\ dividends r = float_sum method (filter notnan (map dividends group))
         /\ stock_splits r = float_sum method (filter notnan (map stock_splits group)).
Proof.
  intros Hin. eexists. split; [apply resample_supported, Hin|]. simpl.
  intros r Hr. unfold resample_rows in Hr. apply in_map_iff in Hr.
  destruct Hr as (e & <- & He). simpl.
  repeat split.
  - apply first_valid_first_of.
  - apply nanmax_max_of.
  - apply nanmin_min_of.
  - apply last_valid_last_of.
Qed.

Lemma resample_aggregates_each_bin_witness :
  In "1H" Collector.intervals
  /\ exists out,
       Resampler.resample arabic_indic KahanReset gap_day_5M "1H" = Some out
       /\ forall r, In r (rows out) ->
            first_of open
              (bucket (bin_width arabic_indic "1H") (sort_index (rows gap_day_5M)) (datetime r))
              (open r).
Proof.
  assert (H : In "1H" Collector.intervals) by (simpl; auto).
  split; [exact H|].
  destruct (resample_aggregates_each_bin arabic_indic KahanReset gap_day_5M "1H" H) as (out & E & A).
  exists out. split; [exact E|].
  intros r Hr. exact (proj1 (A r Hr)).
Defined.

(** When nothing is missing in a bin that is not empty, the amended C1
    reads as the specification words it: open is the open of the first
    bar and close is the close of the last bar. *)
Lemma first_of_present f b rest v :
  PrimFloat.is_nan (f b) = false -> first_of f (b :: rest) v -> v = f b.
Proof.
  intros Hb [(pre & x & post & E & Hpre & Hx & ->) | [Hall _]].
  - destruct pre as [|p pre]; simpl in E; inversion E; subst; [reflexivity|].
    inversion Hpre; subst. unfold missing in *. congruence.
  - inversion Hall; subst. unfold missing in *. congruence.
Qed.

Lemma last_of_present f pre b v :
  PrimFloat.is_nan (f b) = false -> last_of f (pre ++ [b]) v -> v = f b.
Proof.
  intros Hb [(p & x & post & E & Hpost & Hx & ->) | [Hall _]].
  - destruct post as [|y post _] using rev_ind.
    + apply app_inj_tail in E. destruct E as [_ <-]. reflexivity.
    + change (p ++ x :: post ++ [y])%list with (p ++ (x :: post) ++ [y])%list in E.
      rewrite app_assoc in E. apply app_inj_tail in E. destruct E as [_ <-].
      apply Forall_app in Hpost. destruct Hpost as [_ Hy].
      inversion Hy; subst. unfold missing in *. congruence.
  - apply Forall_app in Hall. destruct Hall as [_ Hy].
    inversion Hy; subst. unfold missing in *. congruence.
Qed.

(** C6. Sixty consecutive one-minute bars starting at 2024-01-02T09:30:00,
    each with open 100, high 101, low 99, close 100.5 and volume 1000,
    resampled to five minutes, give exactly twelve bars, the first of which
    has open 100, close 100.5, high 101, low 99 and volume 5000. *)
Theorem sixty_minutes_to_five decimal method d s :
  exists out r rest,
    Resampler.resample decimal method (sixty_bars d s) "5M" = Some out
    /\ List.length (rows out) = 12%nat
    /\ rows out = r :: rest
    /\ datetime r = Timestamp 2024 1 2 9 30 0
    /\ open r = 100%float /\ close r = 100.5%float
    /\ high r = 101%float /\ low r = 99%float
    /\ volume r = 5000.
Proof.
  do 3 eexists. split; [vm_compute; reflexivity|].
  repeat split.
Qed.

(** ** The orchestration *)

Lemma attempt_reliable succeeds s w :
  reliable succeeds -> attempt succeeds s w = (Some tt, w).
Proof.
  intros H. unfold attempt. rewrite H. reflexivity.
Qed.

(** What [save_ticker_data] can do: print the line and store the object,
    or print the line and raise before anything is stored, or print the
    line, store the object and raise when the temporary file is removed. *)
Lemma save_ticker_data_cases succeeds self data d ticker interval w :
  Collector.save_ticker_data succeeds self data d ticker interval w
  = (Some tt,
     mkWorld (uploads w ++ [stored self d ticker interval data])
             (stdout w ++ [printed self d ticker interval data]))
  \/ Collector.save_ticker_data succeeds self data d ticker interval w
     = (None,
        mkWorld (uploads w ++ [stored self d ticker interval data])
                (stdout w ++ [printed self d ticker interval data]))
  \/ Collector.save_ticker_data succeeds self data d ticker interval w
     = (None,
        mkWorld (uploads w) (stdout w ++ [printed self d ticker interval data])).
Proof.
  unfold Collector.save_ticker_data, Collector.save, GCSManager.upload, bindM,
    attempt, Collector.print, GCSManager.put.
  cbn [uploads stdout].
  destruct (succeeds (WriteTempFile _) _); [|right; right; reflexivity].
  destruct (succeeds (UploadObject _) _); [|right; right; reflexivity].
  cbn [uploads stdout].
  destruct (succeeds RemoveTempFile _); [left | right; left]; reflexivity.
Qed.

Lemma save_ticker_data_run succeeds self data d ticker interval w :
  reliable succeeds ->
  Collector.save_ticker_data succeeds self data d ticker interval w
  = (Some tt,
     mkWorld (uploads w ++ [stored self d ticker interval data])
             (stdout w ++ [printed self d ticker interval data])).
Proof.
  intros H.
  unfold Collector.save_ticker_data, Collector.save, GCSManager.upload, bindM,
    attempt, Collector.print, GCSManager.put.
  rewrite !H. reflexivity.
Qed.

Lemma collect_ticker_run decimal method history succeeds self d ticker bars w :
  reliable succeeds ->
  fetched history self d ticker = Some bars ->
  exists s,
    chained decimal method history self d ticker s
    /\ Collector.collect_ticker decimal method history succeeds self d ticker w
       = (Some tt,
          mkWorld (uploads w ++ stage_uploads self d (ticker, s))
                  (stdout w ++ stage_lines self d (ticker, s))).
Proof.
  intros Hr H. unfold fetched in H.
  set (base := mkFrame YFinanceCollector.columns bars).
  assert (I5 : In "5M" Collector.intervals) by (simpl; auto).
  assert (I1 : In "1H" Collector.intervals) by (simpl; auto).
  assert (ID : In "1D" Collector.intervals) by (simpl; auto 6).
  pose proof (resample_supported decimal method base "5M" I5) as E5.
  set (m5 := mkFrame _ _) in E5.
  pose proof (resample_supported decimal method m5 "1H" I1) as E1.
  set (h1 := mkFrame _ _) in E1.
  pose proof (resample_supported decimal method h1 "1D" ID) as ED.
  set (d1 := mkFrame _ _) in ED.
  exists (mkStages base m5 h1 d1). split.
  - unfold chained. cbn [stage_1M stage_5M stage_1H stage_1D].
    split; [exists bars; split; [exact H | reflexivity]|].
    split; [exact E5|]. split; [exact E1 | exact ED].
  - unfold Collector.collect_ticker, YFinanceCollector.collect, bindM, lift, ret.
    rewrite H. fold base.
    cbn [Collector.collect_intervals Collector.intervals].
    unfold bindM, lift, ret. cbn [negb String.eqb Ascii.eqb Bool.eqb Collector.collect_interval].
    rewrite (save_ticker_data_run succeeds) by exact Hr.
    rewrite E5, (save_ticker_data_run succeeds) by exact Hr.
    rewrite E1, (save_ticker_data_run succeeds) by exact Hr.
    rewrite ED, (save_ticker_data_run succeeds) by exact Hr.
    cbn [uploads stdout]. rewrite <- !app_assoc. reflexivity.
Qed.

Lemma for_each_ticker_run decimal method history succeeds self d (l : list string) w :
  reliable succeeds ->
  Forall (fun ticker => fetched history self d ticker <> None) l ->
  exists stages,
    Forall2 (chained decimal method history self d) l stages
    /\ for_each l (Collector.collect_ticker decimal method history succeeds self d) w
       = (Some tt,
          mkWorld (uploads w ++ flat_map (stage_uploads self d) (combine l stages))
                  (stdout w ++ flat_map (stage_lines self d) (combine l stages))).
Proof.
  intros Hr H. revert w. induction H as [|ticker l Hok Hl IH]; intros w.
  - exists []. split; [constructor|]. simpl. rewrite !app_nil_r.
    destruct w; reflexivity.
  - destruct (fetched history self d ticker) as [bars|] eqn:E; [|congruence].
    destruct (collect_ticker_run decimal method history succeeds self d ticker bars w Hr E)
      as (s & Hs & Hrun).
    destruct (IH (mkWorld (uploads w ++ stage_uploads self d (ticker, s))
                          (stdout w ++ stage_lines self d (ticker, s))))
      as (stages & Hst & Hrest).
    exists (s :: stages). split; [constructor; assumption|].
    cbn [for_each]. unfold bindM at 1. rewrite Hrun, Hrest.
    cbn [uploads stdout combine flat_map]. rewrite <- !app_assoc. reflexivity.
Qed.

(** C3. [Collector.collect], when every fetch succeeds and every step of
    saving succeeds, returns and stores for each ticker, in order, four
    tables: the fetched frame under [1M] as it is, then under [5M], [1H]
    and [1D] the frame that [resample] returns on the frame stored just
    before it, never on the fetched frame again. *)
Theorem collect_chains_resampling decimal method history succeeds self d w :
  reliable succeeds ->
  Forall (fun ticker => fetched history self d ticker <> None) (Collector.tickers self) ->
  exists stages,
    Forall2 (chained decimal method history self d) (Collector.tickers self) stages
    /\ fst (Collector.collect decimal method history succeeds self d w) = Some tt
    /\ uploads (snd (Collector.collect decimal method history succeeds self d w))
       = (uploads w
          ++ flat_map (stage_uploads self d) (combine (Collector.tickers self) stages))%list.
Proof.
  intros Hr H. unfold Collector.collect.
  destruct (for_each_ticker_run decimal method history succeeds self d (Collector.tickers self) w Hr H)
    as (stages & Hst & Hrun).
  exists stages. rewrite Hrun. repeat split. exact Hst.
Qed.

Lemma collect_chains_resampling_witness :
  let self := built ["AAPL"] "prices" "dinero-collector/yfinance" in
  let d := Date 2024 1 2 in
  let w := mkWorld [] [] in
  reliable always
  /\ Forall (fun ticker => fetched gap_history self d ticker <> None) (Collector.tickers self)
  /\ exists stages,
       Forall2 (chained arabic_indic KahanReset gap_history self d) (Collector.tickers self) stages
       /\ uploads (snd (Collector.collect arabic_indic KahanReset gap_history always self d w))
          = flat_map (stage_uploads self d) (combine (Collector.tickers self) stages).
Proof.
  intros self d w.
  assert (Hr : reliable always) by (intros s w'; reflexivity).
  assert (H : Forall (fun ticker => fetched gap_history self d ticker <> None)
                     (Collector.tickers self))
    by (repeat constructor; discriminate).
  split; [exact Hr|]. split; [exact H|].
  destruct (collect_chains_resampling arabic_indic KahanReset gap_history always self d w Hr H)
    as (stages & Hst & _ & Hup).
  exists stages. split; [exact Hst | exact Hup].
Defined.

(** ** The stored object *)

Lemma chars_app s t : chars (s ++ t) = (chars s ++ chars t)%list.
Proof.
  induction s as [|c s IH]; simpl; [reflexivity|].
  unfold chars in *. simpl. rewrite IH. reflexivity.
Qed.

Lemma is_digit_digit_char k : 0 <= k < 10 -> is_digit (digit_char k) = true.
Proof.
  intros H.
  assert (E : k = 0 \/ k = 1 \/ k = 2 \/ k = 3 \/ k = 4 \/ k = 5 \/ k = 6
              \/ k = 7 \/ k = 8 \/ k = 9) by lia.
  repeat (destruct E as [->|E]; [reflexivity|]). subst. reflexivity.
Qed.

Lemma digit_value_digit_char k : 0 <= k < 10 -> digit_value (digit_char k) = k.
Proof.
  intros H.
  assert (E : k = 0 \/ k = 1 \/ k = 2 \/ k = 3 \/ k = 4 \/ k = 5 \/ k = 6
              \/ k = 7 \/ k = 8 \/ k = 9) by lia.
  repeat (destruct E as [->|E]; [reflexivity|]). subst. reflexivity.
Qed.

Lemma zero_padded_length width n :
  List.length (chars (zero_padded width n)) = width.
Proof.
  revert n. induction width as [|w IH]; intros n; simpl; [reflexivity|].
  rewrite chars_app, length_app, IH. simpl. lia.
Qed.

Lemma zero_padded_digits width n :
  Forall (fun c => is_digit c = true) (chars (zero_padded width n)).
Proof.
  revert n. induction width as [|w IH]; intros n; simpl; [constructor|].
  rewrite chars_app. apply Forall_app. split; [apply IH|].
  repeat constructor. apply is_digit_digit_char, Z.mod_pos_bound. lia.
Qed.

Lemma number_of_app ds es :
  number_of (ds ++ es)
  = fold_left (fun acc c => 10 * acc + digit_value c) es (number_of ds).
Proof.
  unfold number_of. apply fold_left_app.
Qed.

Lemma number_of_snoc es c :
  number_of (es ++ [c]) = 10 * number_of es + digit_value c.
Proof.
  unfold number_of. rewrite fold_left_app. reflexivity.
Qed.

Lemma fold_number acc es :
  fold_left (fun acc c => 10 * acc + digit_value c) es acc
  = acc * 10 ^ Z.of_nat (List.length es) + number_of es.
Proof.
  revert acc. induction es as [|c es IH] using rev_ind; intros acc.
  - cbn [fold_left List.length]. unfold number_of. cbn [fold_left].
    change (10 ^ Z.of_nat 0) with 1. lia.
  - rewrite fold_left_app. cbn [fold_left]. rewrite IH, number_of_snoc, length_app.
    cbn [List.length]. rewrite Nat2Z.inj_add, Z.pow_add_r by lia.
    change (10 ^ Z.of_nat 1) with 10. lia.
Qed.

Lemma zero_padded_value width n :
  number_of (chars (zero_padded width n)) = n mod 10 ^ Z.of_nat width.
Proof.
  revert n. induction width as [|w IH]; intros n.
  - cbn [zero_padded chars list_ascii_of_string]. unfold number_of.
    cbn [fold_left]. change (10 ^ Z.of_nat 0) with 1. rewrite Z.mod_1_r. reflexivity.
  - cbn [zero_padded]. rewrite chars_app, number_of_app, IH.
    cbn [chars list_ascii_of_string fold_left].
    rewrite digit_value_digit_char by (apply Z.mod_pos_bound; lia).
    rewrite Nat2Z.inj_succ, Z.pow_succ_r by lia.
    rewrite (Z.mul_comm 10), Z.rem_mul_r by lia. lia.
Qed.

(** C9. For every ticker, interval and date, [save_ticker_data] hands to
    the storage service at most one object, and exactly one when it
    returns: the object is in the configured bucket, under the name path,
    ticker, interval and the date followed by [.csv], joined by slashes,
    and holds the table under the column labels of the frame; when every
    step of saving succeeds the call returns, having printed its line and
    stored that object.  The date is written as eight digits, four for the
    year, two for the month and two for the day; and the frames of the
    program, the one [YFinanceCollector.collect] returns and every one
    [resample] returns, have the labels datetime, open, high, low, close,
    volume, dividends, stock_splits, in that order. *)
Theorem save_ticker_data_layout succeeds self data d ticker interval w :
  let object :=
    mkUpload (GCSManager.bucket_name (Collector.data_uploader self))
             (Collector.upload_path self ++ "/" ++ ticker ++ "/" ++ interval
              ++ "/" ++ date_stamp d ++ ".csv")
             (mkCsv (columns data) (rows data)) in
  let run := Collector.save_ticker_data succeeds self data d ticker interval w in
  (uploads (snd run) = uploads w \/ uploads (snd run) = (uploads w ++ [object])%list)
  /\ (fst run = Some tt -> uploads (snd run) = (uploads w ++ [object])%list)
  /\ (reliable succeeds ->
      run = (Some tt,
             mkWorld (uploads w ++ [object])
                     (stdout w ++ [printed self d ticker interval data])))
  /\ List.length (chars (date_stamp d)) = 8%nat
  /\ Forall (fun c => is_digit c = true) (chars (date_stamp d))
  /\ number_of (chars (date_stamp d))
     = (year d mod 10000) * 10000 + (month d mod 100) * 100 + day d mod 100
  /\ (forall history yf t w0 df w1,
        YFinanceCollector.collect history yf t d w0 = (Some df, w1) ->
        columns df = ["datetime"; "open"; "high"; "low"; "close"; "volume";
                      "dividends"; "stock_splits"])
  /\ (forall decimal method prev i out,
        Resampler.resample decimal method prev i = Some out ->
        columns out = ["datetime"; "open"; "high"; "low"; "close"; "volume";
                       "dividends"; "stock_splits"]).
Proof.
  intros object run.
  assert (Eo : stored self d ticker interval data = object) by reflexivity.
  split; [|split; [|split; [|split; [|split; [|split; [|split]]]]]].
  - destruct (save_ticker_data_cases succeeds self data d ticker interval w)
      as [E|[E|E]]; unfold run; rewrite E, ?Eo; cbn [snd uploads]; auto.
  - destruct (save_ticker_data_cases succeeds self data d ticker interval w)
      as [E|[E|E]]; unfold run; rewrite E, ?Eo; cbn [fst snd uploads]; auto;
      discriminate.
  - intros Hr. unfold run. rewrite (save_ticker_data_run succeeds) by exact Hr.
    rewrite Eo. reflexivity.
  - unfold date_stamp. rewrite !chars_app, !length_app, !zero_padded_length.
    reflexivity.
  - unfold date_stamp. rewrite !chars_app.
    repeat (apply Forall_app; split); apply zero_padded_digits.
  - unfold date_stamp. rewrite !chars_app.
    repeat (rewrite number_of_app, fold_number).
    rewrite !length_app, !zero_padded_length, !zero_padded_value.
    change (10 ^ Z.of_nat 4) with 10000. change (10 ^ Z.of_nat 2) with 100.
    change (10 ^ Z.of_nat (2 + 2)) with 10000. lia.
  - intros history yf t w0 df w1 H.
    unfold YFinanceCollector.collect, bindM, lift, ret in H.
    destruct (history _ _ _ _); inversion H; reflexivity.
  - intros decimal method prev i out H. unfold Resampler.resample in H.
    destruct (to_offset _) as [[w'|n]|]; try discriminate.
    destruct (mapM _ _); simpl in H; inversion H; reflexivity.
Qed.

(** ** The interval label *)

Lemma take_continuation_split k s c tail :
  take_continuation k s = Some (c, tail) ->
  s = c ++ tail
  /\ (forall r, take_continuation k (c ++ r) = Some (c, r))
  /\ replace "M" "T" c = c.
Proof.
  revert s c tail. induction k as [|k IH]; intros s c tail H; cbn [take_continuation] in H.
  - inversion H; subst. repeat split.
  - destruct s as [|b rest]; [discriminate|].
    destruct (is_continuation b) eqn:Eb; [|discriminate].
    destruct (take_continuation k rest) as [[c' tail']|] eqn:Ek; [|discriminate].
    inversion H; subst. destruct (IH rest c' tail Ek) as (E1 & E2 & E3).
    split; [cbn [append]; rewrite <- E1; reflexivity|]. split.
    + intros r. cbn [append take_continuation]. rewrite Eb, E2. reflexivity.
    + cbn [replace]. rewrite E3.
      destruct (Ascii.eqb_spec b "M") as [->|]; [discriminate Eb | reflexivity].
Qed.

Lemma string_app_nil (s : string) : s ++ EmptyString = s.
Proof.
  induction s as [|x s IH]; cbn [append]; [reflexivity|]. rewrite IH. reflexivity.
Qed.

(** A string splits into its first character and the rest in one way. *)
Lemma first_char_split s c rest :
  first_char s = Some (c, rest) ->
  s = c ++ rest /\ one_char c /\ (forall r, first_char (c ++ r) = Some (c, r)).
Proof.
  unfold one_char, first_char. destruct s as [|b s']; [discriminate|].
  destruct (utf8_width b) as [|k] eqn:Ew; [discriminate|].
  destruct (take_continuation k s') as [[c' tail]|] eqn:Ek; [|discriminate].
  intros H. inversion H; subst.
  destruct (take_continuation_split k s' c' rest Ek) as (E1 & E2 & _).
  split; [cbn [append]; rewrite <- E1; reflexivity|].
  split; [|intros r]; cbn [append]; rewrite Ew, ?E2.
  - pose proof (E2 EmptyString) as E0. rewrite string_app_nil in E0.
    rewrite E0. reflexivity.
  - reflexivity.
Qed.

Lemma replace_app old new s t :
  replace old new (s ++ t) = replace old new s ++ replace old new t.
Proof.
  induction s as [|x s IH]; cbn [append replace]; [reflexivity|].
  rewrite IH. reflexivity.
Qed.

(** A decimal digit holds no byte [M]. *)
Lemma decimal_without_M decimal c :
  one_char c -> Resampler.is_decimal decimal c = true -> replace "M" "T" c = c.
Proof.
  unfold one_char, first_char. destruct c as [|b c']; [discriminate|].
  destruct (utf8_width b) as [|k] eqn:Ew; [discriminate|].
  destruct (take_continuation k c') as [[c'' tail]|] eqn:Ek; [|discriminate].
  intros H Hd. inversion H; subst.
  destruct (take_continuation_split k c' c' EmptyString Ek) as (_ & _ & E3).
  cbn [replace]. rewrite E3.
  destruct (Ascii.eqb_spec b "M") as [->|]; [|reflexivity].
  exfalso. cbn in Ew. injection Ew as <-. cbn [take_continuation] in Ek.
  inversion Ek; subst. discriminate Hd.
Qed.

Lemma format_interval_cases decimal (s : string) :
  (exists c,
      one_char c /\ Resampler.is_decimal decimal c = true
      /\ ((s = c ++ "M" /\ Resampler.format_interval decimal s = c ++ "T")
          \/ (s = c ++ String "M" (String newline EmptyString)
              /\ Resampler.format_interval decimal s
                 = c ++ String "T" (String newline EmptyString))))
  \/ ((forall c, one_char c -> Resampler.is_decimal decimal c = true ->
         s <> c ++ "M" /\ s <> c ++ String "M" (String newline EmptyString))
      /\ Resampler.format_interval decimal s = s).
Proof.
  unfold Resampler.format_interval, Resampler.re_match_digit_M.
  destruct (first_char s) as [[c rest]|] eqn:Ef.
  - destruct (first_char_split s c rest Ef) as (Es & Hc & Hf).
    destruct (Resampler.is_decimal decimal c) eqn:Ed; cbn [andb].
    + destruct (String.eqb_spec rest "M") as [->|N1]; cbn [orb].
      * left. exists c. repeat split; auto. left. split; [exact Es|].
        rewrite Es, replace_app, (decimal_without_M decimal c Hc Ed). reflexivity.
      * destruct (String.eqb_spec rest (String "M" (String newline EmptyString)))
          as [->|N2].
        -- left. exists c. repeat split; auto. right. split; [exact Es|].
           rewrite Es, replace_app, (decimal_without_M decimal c Hc Ed). reflexivity.
        -- right. split; [|reflexivity]. intros c' Hc' Hd'.
           split; intros E; rewrite E in Ef; unfold one_char in Hc';
             destruct (first_char_split _ _ _ Hc') as (_ & _ & Hf');
             rewrite Hf' in Ef; inversion Ef; subst; congruence.
    + right. split; [|reflexivity]. intros c' Hc' Hd'.
      split; intros E; rewrite E in Ef; unfold one_char in Hc';
        destruct (first_char_split _ _ _ Hc') as (_ & _ & Hf');
        rewrite Hf' in Ef; inversion Ef; subst; congruence.
  - right. split; [|reflexivity]. intros c' Hc' Hd'.
    split; intros E; rewrite E in Ef; unfold one_char in Hc';
      destruct (first_char_split _ _ _ Hc') as (_ & _ & Hf');
      rewrite Hf' in Ef; discriminate.
Qed.

(** C10, amended. [format_interval] rewrites a string, turning its [M]
    into [T], exactly when the string is one decimal digit followed by
    [M], with or without one newline after them; the digit is any Unicode
    decimal digit, not only 0 to 9.  Every other string is returned
    unchanged, [1H], [1D] and [15M] among them, and [15M] then denotes
    fifteen month ends to the resampler. *)
Theorem format_interval_spec decimal :
  (forall s,
     (exists c,
         one_char c /\ Resampler.is_decimal decimal c = true
         /\ ((s = c ++ "M" /\ Resampler.format_interval decimal s = c ++ "T")
             \/ (s = c ++ String "M" (String newline EmptyString)
                 /\ Resampler.format_interval decimal s
                    = c ++ String "T" (String newline EmptyString))))
     \/ ((forall c, one_char c -> Resampler.is_decimal decimal c = true ->
            s <> c ++ "M" /\ s <> c ++ String "M" (String newline EmptyString))
         /\ Resampler.format_interval decimal s = s))
  /\ Resampler.format_interval decimal "1H" = "1H"
  /\ Resampler.format_interval decimal "1D" = "1D"
  /\ Resampler.format_interval decimal "15M" = "15M"
  /\ to_offset (Resampler.format_interval decimal "15M") = Some (MonthEnd 15).
Proof.
  split; [exact (format_interval_cases decimal)|]. repeat split.
Qed.

Example format_interval_program_intervals :
  map (Resampler.format_interval arabic_indic) Collector.intervals
  = ["1T"; "5T"; "1H"; "1D"].
Proof. reflexivity. Qed.

(** The labels that C10 names are passed through, and [15M] then denotes
    fifteen months, not fifteen minutes. *)
Example format_interval_passes_through :
  Resampler.format_interval arabic_indic "1H" = "1H"
  /\ Resampler.format_interval arabic_indic "1D" = "1D"
  /\ Resampler.format_interval arabic_indic "15M" = "15M"
  /\ to_offset (Resampler.format_interval arabic_indic "15M") = Some (MonthEnd 15)
  /\ to_offset (Resampler.format_interval arabic_indic "5M") = Some (Tick (5 * minute_nanos)).
Proof. repeat split. Qed.

(** The Arabic-Indic digit three followed by [M] is rewritten too. *)
Example format_interval_other_digit :
  let three := String (ascii_of_nat 217) (String (ascii_of_nat 163) EmptyString) in
  one_char three
  /\ Resampler.format_interval arabic_indic (three ++ "M") = three ++ "T".
Proof. split; reflexivity. Qed.

(** C10, as the claim states it, fails: the string made of [1], [M] and a
    newline is not one digit followed by [M], and [format_interval] does
    not return it unchanged: it returns [1], [T] and the newline, because
    [$] also matches just before a newline that ends the string. *)
Lemma format_interval_rewrites_before_newline :
  let s := String "1" (String "M" (String newline EmptyString)) in
  Resampler.format_interval arabic_indic s
  = String "1" (String "T" (String newline EmptyString))
  /\ Resampler.format_interval arabic_indic s <> s
  /\ (forall c, s <> c ++ "M").
Proof.
  repeat split; try discriminate.
  intros [|x [|y [|z c]]] H; cbn [append] in H; try discriminate H.
  injection H as _ _ _ H. destruct c; discriminate H.
Qed.


(** * More of the program *)

(** ** More order facts on float64 *)

Lemma SFltb_trans a b c :
  SFltb a b = true -> SFltb b c = true -> SFltb a c = true.
Proof. sf_crush. Qed.

Lemma SFltb_negative_trans a b c :
  a <> S754_nan -> b <> S754_nan -> c <> S754_nan ->
  SFltb a b = false -> SFltb b c = false -> SFltb a c = false.
Proof. sf_crush. Qed.

Lemma SFleb_trans a b c :
  SFleb a b = true -> SFleb b c = true -> SFleb a c = true.
Proof. sf_crush. Qed.

Lemma ltb_trans x y z :
  (x <? y)%float = true -> (y <? z)%float = true -> (x <? z)%float = true.
Proof.
  rewrite !ltb_spec. apply SFltb_trans.
Qed.

Lemma ltb_negative_trans x y z :
  PrimFloat.is_nan x = false -> PrimFloat.is_nan y = false ->
  PrimFloat.is_nan z = false ->
  (x <? y)%float = false -> (y <? z)%float = false -> (x <? z)%float = false.
Proof.
  intros Hx Hy Hz. rewrite !ltb_spec.
  apply SFltb_negative_trans; apply notnan_spec; assumption.
Qed.

Lemma leb_trans x y z :
  (x <=? y)%float = true -> (y <=? z)%float = true -> (x <=? z)%float = true.
Proof.
  rewrite !leb_spec. apply SFleb_trans.
Qed.

Lemma is_nan_eq x : PrimFloat.is_nan x = true -> x = nan.
Proof.
  intros H. apply is_nan_spec in H. apply Prim2SF_inj. rewrite H. reflexivity.
Qed.

(** ** Aggregating the aggregates *)

Lemma first_valid_app xs ys :
  first_valid (xs ++ ys)
  = if PrimFloat.is_nan (first_valid xs) then first_valid ys else first_valid xs.
Proof.
  induction xs as [|x xs IH]; simpl; [reflexivity|].
  destruct (PrimFloat.is_nan x) eqn:E; [exact IH | rewrite E; reflexivity].
Qed.

Lemma first_valid_single x : first_valid [x] = x.
Proof.
  simpl. destruct (PrimFloat.is_nan x) eqn:E; [|reflexivity].
  symmetry. apply is_nan_eq, E.
Qed.

Lemma last_valid_single x : last_valid [x] = x.
Proof.
  unfold last_valid. cbn [rev app]. apply first_valid_single.
Qed.

Lemma last_valid_app xs ys :
  last_valid (xs ++ ys)
  = if PrimFloat.is_nan (last_valid ys) then last_valid xs else last_valid ys.
Proof.
  unfold last_valid. rewrite rev_app_distr. apply first_valid_app.
Qed.

Lemma first_valid_groups (f : Bar -> float) (groups : list (list Bar)) :
  first_valid (map (fun g => first_valid (map f g)) groups)
  = first_valid (map f (List.concat groups)).
Proof.
  induction groups as [|g gs IH]; [reflexivity|].
  cbn [map List.concat]. rewrite map_app, first_valid_app.
  cbn [first_valid]. rewrite IH. reflexivity.
Qed.

Lemma last_valid_groups (f : Bar -> float) (groups : list (list Bar)) :
  last_valid (map (fun g => last_valid (map f g)) groups)
  = last_valid (map f (List.concat groups)).
Proof.
  induction groups as [|g gs IH]; [reflexivity|].
  cbn [map List.concat]. rewrite map_app, last_valid_app, <- IH.
  change (last_valid (map f g) :: map (fun g0 => last_valid (map f g0)) gs)
    with ([last_valid (map f g)] ++ map (fun g0 => last_valid (map f g0)) gs)%list.
  rewrite last_valid_app, last_valid_single. reflexivity.
Qed.

Lemma max_step_valid acc x : valid_acc acc -> valid_acc (max_step acc x).
Proof.
  unfold max_step. destruct (PrimFloat.is_nan x) eqn:E; [auto|].
  destruct acc as [m|]; simpl; intros H; [|exact E].
  destruct (m <? x)%float; simpl; assumption.
Qed.

Lemma min_step_valid acc x : valid_acc acc -> valid_acc (min_step acc x).
Proof.
  unfold min_step. destruct (PrimFloat.is_nan x) eqn:E; [auto|].
  destruct acc as [m|]; simpl; intros H; [|exact E].
  destruct (x <? m)%float; simpl; assumption.
Qed.

Lemma fold_max_valid xs acc : valid_acc acc -> valid_acc (fold_left max_step xs acc).
Proof.
  revert acc. induction xs as [|x xs IH]; intros acc H; simpl; [exact H|].
  apply IH, max_step_valid, H.
Qed.

Lemma fold_min_valid xs acc : valid_acc acc -> valid_acc (fold_left min_step xs acc).
Proof.
  revert acc. induction xs as [|x xs IH]; intros acc H; simpl; [exact H|].
  apply IH, min_step_valid, H.
Qed.

Ltac float_simpl :=
  repeat (cbn [or_nan]; cbv iota;
          change (PrimFloat.is_nan nan) with true;
          repeat match goal with
          | H : PrimFloat.is_nan ?x = _ |- context [PrimFloat.is_nan ?x] => rewrite H
          | H : (?x <? ?y)%float = _ |- context [(?x <? ?y)%float] => rewrite H
          end).

Ltac float_cases :=
  float_simpl;
  repeat (match goal with
          | |- context [if PrimFloat.is_nan ?x then _ else _] =>
              is_var x; destruct (PrimFloat.is_nan x) eqn:?
          | |- context [if (?x <? ?y)%float then _ else _] =>
              is_var x; is_var y; destruct (x <? y)%float eqn:?
          end; float_simpl).

Lemma max_step_join acc o a :
  valid_acc acc -> valid_acc o ->
  max_step (max_step acc (or_nan o)) a = max_step acc (or_nan (max_step o a)).
Proof.
  intros Hacc Ho. destruct acc as [m|], o as [x|]; simpl in Hacc, Ho;
    unfold max_step; float_cases; try reflexivity; try congruence.
  - pose proof (ltb_trans m x a). intuition congruence.
  - pose proof (ltb_negative_trans m x a). intuition congruence.
Qed.

Lemma min_step_join acc o a :
  valid_acc acc -> valid_acc o ->
  min_step (min_step acc (or_nan o)) a = min_step acc (or_nan (min_step o a)).
Proof.
  intros Hacc Ho. destruct acc as [m|], o as [x|]; simpl in Hacc, Ho;
    unfold min_step; float_cases; try reflexivity; try congruence.
  - pose proof (ltb_trans a x m). intuition congruence.
  - pose proof (ltb_negative_trans a x m). intuition congruence.
Qed.

(** Going on from a running maximum is taking the maximum of it and of
    the maximum of what follows. *)
Lemma fold_max_from xs acc :
  valid_acc acc ->
  fold_left max_step xs acc = max_step acc (nanmax xs).
Proof.
  intros Hacc. unfold nanmax.
  induction xs as [|a l IH] using rev_ind.
  - destruct acc; reflexivity.
  - rewrite !fold_left_app. cbn [fold_left]. rewrite IH.
    apply max_step_join; [exact Hacc | apply fold_max_valid; exact I].
Qed.

Lemma fold_min_from xs acc :
  valid_acc acc ->
  fold_left min_step xs acc = min_step acc (nanmin xs).
Proof.
  intros Hacc. unfold nanmin.
  induction xs as [|a l IH] using rev_ind.
  - destruct acc; reflexivity.
  - rewrite !fold_left_app. cbn [fold_left]. rewrite IH.
    apply min_step_join; [exact Hacc | apply fold_min_valid; exact I].
Qed.

Lemma fold_max_groups (f : Bar -> float) (groups : list (list Bar)) acc :
  valid_acc acc ->
  fold_left max_step (map (fun g => nanmax (map f g)) groups) acc
  = fold_left max_step (map f (List.concat groups)) acc.
Proof.
  revert acc. induction groups as [|g gs IH]; intros acc Hacc; [reflexivity|].
  cbn [map List.concat fold_left]. rewrite map_app, fold_left_app.
  rewrite <- (fold_max_from (map f g) acc Hacc).
  apply IH, fold_max_valid, Hacc.
Qed.

Lemma fold_min_groups (f : Bar -> float) (groups : list (list Bar)) acc :
  valid_acc acc ->
  fold_left min_step (map (fun g => nanmin (map f g)) groups) acc
  = fold_left min_step (map f (List.concat groups)) acc.
Proof.
  revert acc. induction groups as [|g gs IH]; intros acc Hacc; [reflexivity|].
  cbn [map List.concat fold_left]. rewrite map_app, fold_left_app.
  rewrite <- (fold_min_from (map f g) acc Hacc).
  apply IH, fold_min_valid, Hacc.
Qed.

Lemma nanmax_groups (f : Bar -> float) (groups : list (list Bar)) :
  nanmax (map (fun g => nanmax (map f g)) groups)
  = nanmax (map f (List.concat groups)).
Proof.
  unfold nanmax at 1 3. rewrite fold_max_groups; [reflexivity | exact I].
Qed.

Lemma nanmin_groups (f : Bar -> float) (groups : list (list Bar)) :
  nanmin (map (fun g => nanmin (map f g)) groups)
  = nanmin (map f (List.concat groups)).
Proof.
  unfold nanmin at 1 3. rewrite fold_min_groups; [reflexivity | exact I].
Qed.

Lemma sum_int64_groups (groups : list (list Bar)) :
  sum_int64 (map (fun g => sum_int64 (map volume g)) groups)
  = sum_int64 (map volume (List.concat groups)).
Proof.
  rewrite !sum_int64_wrap, wrap64_Zsum_wrap, Zsum_concat_volume. reflexivity.
Qed.

(** ** The labels of the output *)

Lemma edges_increasing lo w (a n : nat) :
  0 < w ->
  StronglySorted Z.lt (map (fun k => lo + Z.of_nat k * w) (seq a n)).
Proof.
  intros Hw. revert a. induction n as [|n IH]; intros a; cbn [seq map].
  - constructor.
  - constructor; [apply IH|].
    apply Forall_forall. intros e He. apply in_map_iff in He.
    destruct He as (k & <- & Hk). apply in_seq in Hk. nia.
Qed.

Lemma bin_edges_increasing w l :
  0 < w -> StronglySorted Z.lt (bin_edges w l).
Proof.
  intros Hw. destruct l as [|b l]; [constructor|].
  unfold bin_edges. destruct (bin_range w _ _) as [lo hi].
  apply edges_increasing, Hw.
Qed.

Lemma StronglySorted_labels (R : Z -> Z -> Prop) (l : list Bar) :
  StronglySorted R (map datetime l) ->
  StronglySorted (fun r r' => R (datetime r) (datetime r')) l.
Proof.
  induction l as [|r l IH]; cbn [map]; intros H; [constructor|].
  inversion H as [|? ? Hl Hr]; subst. constructor; [apply IH, Hl|].
  rewrite Forall_map in Hr. exact Hr.
Qed.

Lemma resample_rows_increasing method w l :
  0 < w ->
  StronglySorted (fun r r' => datetime r < datetime r') (resample_rows method w l).
Proof.
  intros Hw. apply (StronglySorted_labels Z.lt).
  rewrite resample_rows_labels. apply bin_edges_increasing, Hw.
Qed.

Lemma resample_rows_chronological method w l :
  0 < w -> chronological (resample_rows method w l).
Proof.
  intros Hw. unfold chronological.
  pose proof (resample_rows_increasing method w l Hw) as H.
  induction H as [|r rs Hrs IH Hr]; constructor; [exact IH|].
  eapply Forall_impl; [|exact Hr]. simpl. intros; lia.
Qed.

Lemma last_map {A B : Type} (f : A -> B) (l : list A) (d : A) :
  List.last (map f l) (f d) = f (List.last l d).
Proof.
  induction l as [|x l IH]; [reflexivity|].
  destruct l as [|y l]; [reflexivity|]. exact IH.
Qed.

Lemma last_seq_map {B : Type} (g : nat -> B) (n : nat) (d : B) :
  List.last (map g (seq 0 (S n))) d = g n.
Proof.
  rewrite seq_S, map_app. cbn [map Nat.add]. apply last_last.
Qed.

(** The labels in closed form: whole multiples of the width, counted from
    the midnight before the first row. *)
Lemma bin_edges_closed w b rest :
  0 < w -> chronological (b :: rest) ->
  bin_edges w (b :: rest)
  = map (fun k => normalize (datetime b)
                  + ((datetime b - normalize (datetime b)) / w + Z.of_nat k) * w)
        (seq 0 (Z.to_nat ((datetime (List.last (b :: rest) b) - normalize (datetime b)) / w
                          - (datetime b - normalize (datetime b)) / w + 1))).
Proof.
  intros Hw Hs. unfold bin_edges, bin_range.
  set (first := datetime b). set (last := datetime (List.last (b :: rest) b)).
  set (o := normalize first).
  pose proof (Z.div_mod (first - o) w ltac:(lia)) as E1.
  pose proof (Z.div_mod (last - o) w ltac:(lia)) as E2.
  replace ((last - (last - o) mod w + w - (first - (first - o) mod w)) / w)
    with ((last - o) / w - (first - o) / w + 1).
  - apply map_ext. intros k. lia.
  - replace (last - (last - o) mod w + w - (first - (first - o) mod w))
      with (((last - o) / w - (first - o) / w + 1) * w) by lia.
    symmetry. apply Z.div_mul. lia.
Qed.

Lemma normalize_bounds t : normalize t <= t < normalize t + day_nanos.
Proof.
  unfold normalize.
  assert (Hd : 0 < day_nanos) by reflexivity.
  pose proof (Z.div_mod t day_nanos ltac:(lia)).
  pose proof (Z.mod_pos_bound t day_nanos Hd). lia.
Qed.

Lemma normalize_within t u :
  normalize t <= u < normalize t + day_nanos -> normalize u = normalize t.
Proof.
  unfold normalize. intros H. f_equal.
  assert (Hd : 0 < day_nanos) by reflexivity.
  symmetry. apply (Z.div_unique_pos u day_nanos (t / day_nanos) (u - t / day_nanos * day_nanos)); lia.
Qed.

Lemma floor_of_floor x w c :
  0 < w -> 0 < c -> (x / w * w) / (c * w) = x / (c * w).
Proof.
  intros Hw Hc. rewrite Z.div_mul_cancel_r by lia.
  rewrite Z.div_div by lia. f_equal. lia.
Qed.

Lemma floor_le x w : 0 < w -> 0 <= x -> 0 <= x / w * w <= x.
Proof.
  intros Hw Hx. pose proof (Z.div_mod x w ltac:(lia)).
  pose proof (Z.mod_pos_bound x w Hw).
  assert (0 <= x / w) by (apply Z.div_pos; lia). nia.
Qed.

(** ** Resampling what was resampled *)

Lemma resample_rows_nil method w l : sort_index l = [] -> resample_rows method w l = [].
Proof.
  intros E. unfold resample_rows. rewrite E. reflexivity.
Qed.

Lemma chronological_first_last b rest :
  chronological (b :: rest) ->
  datetime b <= datetime (List.last (b :: rest) b).
Proof.
  intros Hs. pose proof (chronological_bounds b rest Hs) as H.
  inversion H; subst. lia.
Qed.

(** The first and the last label of the output. *)
Lemma resample_rows_ends method w l b rest :
  0 < w -> sort_index l = b :: rest ->
  exists r0 rs,
    resample_rows method w l = r0 :: rs
    /\ datetime r0
       = normalize (datetime b) + (datetime b - normalize (datetime b)) / w * w
    /\ datetime (List.last (r0 :: rs) r0)
       = normalize (datetime b)
         + (datetime (List.last (b :: rest) b) - normalize (datetime b)) / w * w.
Proof.
  intros Hw E.
  assert (Hs : chronological (b :: rest))
    by (rewrite <- E; apply sort_index_chronological).
  pose proof (chronological_first_last b rest Hs) as Hfl.
  pose proof (normalize_bounds (datetime b)) as Hn.
  unfold resample_rows. rewrite E, (bin_edges_closed w b rest Hw Hs).
  set (o := normalize (datetime b)) in *.
  set (qf := (datetime b - o) / w).
  set (ql := (datetime (List.last (b :: rest) b) - o) / w).
  assert (Hq : qf <= ql) by (apply Z.div_le_mono; lia).
  destruct (Z.to_nat (ql - qf + 1)) as [|n] eqn:En; [lia|].
  set (g := fun k : nat => o + (qf + Z.of_nat k) * w).
  set (mk := fun edge : Z => agg_bar method edge (bucket w (b :: rest) edge)).
  exists (mk (g O)), (map (fun k => mk (g k)) (seq 1 n)).
  split; [rewrite map_map; reflexivity|]. split.
  - unfold mk, g. cbn [datetime agg_bar]. change (Z.of_nat 0) with 0. lia.
  - change (mk (g O) :: map (fun k => mk (g k)) (seq 1 n))
      with (map (fun k => mk (g k)) (seq 0 (S n))).
    rewrite (last_seq_map (fun k => mk (g k)) n (mk (g O))).
    unfold mk, g. cbn [datetime agg_bar]. nia.
Qed.

Lemma chain_edges method w c l :
  0 < w -> 0 < c ->
  bin_edges (c * w) (resample_rows method w l) = bin_edges (c * w) (sort_index l).
Proof.
  intros Hw Hc. destruct (sort_index l) as [|b rest] eqn:E.
  - rewrite resample_rows_nil by exact E. reflexivity.
  - assert (Hs : chronological (b :: rest))
      by (rewrite <- E; apply sort_index_chronological).
    pose proof (chronological_first_last b rest Hs) as Hfl.
    pose proof (normalize_bounds (datetime b)) as Hn.
    pose proof (resample_rows_chronological method w l Hw) as Hs1.
    destruct (resample_rows_ends method w l b rest Hw E) as (r0 & rs & E1 & Hf & Hl).
    rewrite E1 in *.
    assert (Hcw : 0 < c * w) by nia.
    rewrite (bin_edges_closed (c * w) r0 rs Hcw Hs1).
    rewrite (bin_edges_closed (c * w) b rest Hcw Hs).
    set (o := normalize (datetime b)) in *.
    pose proof (floor_le (datetime b - o) w Hw ltac:(lia)) as Hfloor.
    assert (Ho : normalize (datetime r0) = o).
    { unfold o. apply normalize_within. fold o. rewrite Hf. lia. }
    rewrite Ho, Hf, Hl.
    replace (o + (datetime b - o) / w * w - o) with ((datetime b - o) / w * w) by lia.
    replace (o + (datetime (List.last (b :: rest) b) - o) / w * w - o)
      with ((datetime (List.last (b :: rest) b) - o) / w * w) by lia.
    rewrite !floor_of_floor by assumption. reflexivity.
Qed.

Lemma filter_map_swap {A B : Type} (P : B -> bool) (f : A -> B) (l : list A) :
  filter P (map f l) = map f (filter (fun a => P (f a)) l).
Proof.
  induction l as [|a l IH]; simpl; [reflexivity|].
  destruct (P (f a)); simpl; rewrite IH; reflexivity.
Qed.

Lemma filter_all {A : Type} (P : A -> bool) (l : list A) :
  (forall a, In a l -> P a = true) -> filter P l = l.
Proof.
  induction l as [|a l IH]; simpl; intros H; [reflexivity|].
  rewrite (H a) by auto. rewrite IH by auto. reflexivity.
Qed.

Lemma filter_none {A : Type} (P : A -> bool) (l : list A) :
  (forall a, In a l -> P a = false) -> filter P l = [].
Proof.
  induction l as [|a l IH]; simpl; intros H; [reflexivity|].
  rewrite (H a) by auto. apply IH. auto.
Qed.

Lemma concat_filter_groups {A B : Type} (R : A -> bool) (P : B -> bool)
    (G : A -> list B) (l : list A) :
  (forall a b, In a l -> In b (G a) -> P b = R a) ->
  List.concat (map G (filter R l)) = filter P (List.concat (map G l)).
Proof.
  induction l as [|a l IH]; intros H; [reflexivity|].
  cbn [filter map List.concat]. rewrite filter_app, <- IH by (intros; apply H; simpl; auto).
  destruct (R a) eqn:Ea; cbn [map List.concat].
  - rewrite (filter_all P (G a)); [reflexivity|].
    intros b Hb. rewrite (H a b); simpl; auto.
  - rewrite (filter_none P (G a)); [reflexivity|].
    intros b Hb. rewrite (H a b); simpl; auto.
Qed.

(** A narrow bin lies inside a wide bin or outside of it, when both are
    counted from the same midnight and the wide width is a multiple of the
    narrow one. *)
Lemma aligned_bins o w c (a j t : Z) :
  0 < w -> 0 < c ->
  o + a * w <= t < o + a * w + w ->
  in_bin (c * w) (o + j * (c * w)) (mkBar t 0 0 0 0 0 0 0)
  = ((o + j * (c * w) <=? o + a * w) && (o + a * w <? o + j * (c * w) + c * w)).
Proof.
  intros Hw Hc Ht. unfold in_bin. cbn [datetime].
  destruct (Z.leb_spec (o + j * (c * w)) t) as [A|A];
    destruct (Z.ltb_spec t (o + j * (c * w) + c * w)) as [B|B];
    destruct (Z.leb_spec (o + j * (c * w)) (o + a * w)) as [C|C];
    destruct (Z.ltb_spec (o + a * w) (o + j * (c * w) + c * w)) as [D|D];
    try reflexivity; exfalso.
  all: assert (Hcases : a < j * c \/ j * c <= a < j * c + c \/ j * c + c <= a) by lia.
  all: destruct Hcases as [K|[K|K]]; nia.
Qed.

Lemma in_closed_edges w b rest e :
  0 < w -> chronological (b :: rest) -> In e (bin_edges w (b :: rest)) ->
  exists a, e = normalize (datetime b) + a * w.
Proof.
  intros Hw Hs He. rewrite (bin_edges_closed w b rest Hw Hs) in He.
  apply in_map_iff in He. destruct He as (k & <- & _). eexists. reflexivity.
Qed.

(** The wide bin holds the bars of the narrow bins whose labels it holds. *)
Lemma chain_bucket w c s E :
  0 < w -> 0 < c -> chronological s -> In E (bin_edges (c * w) s) ->
  List.concat (map (bucket w s)
                   (filter (fun e => (E <=? e) && (e <? E + c * w)) (bin_edges w s)))
  = bucket (c * w) s E.
Proof.
  intros Hw Hc Hs HE.
  destruct s as [|b rest]; [destruct HE|].
  assert (Hcw : 0 < c * w) by nia.
  destruct (in_closed_edges (c * w) b rest E Hcw Hs HE) as (j & ->).
  rewrite (concat_filter_groups _ (in_bin (c * w) (normalize (datetime b) + j * (c * w)))).
  - rewrite (buckets_concat w (b :: rest) Hw Hs). reflexivity.
  - intros e x He Hx.
    destruct (in_closed_edges w b rest e Hw Hs He) as (a & ->).
    unfold bucket in Hx. apply filter_In in Hx. destruct Hx as [_ Hx].
    unfold in_bin in Hx. apply andb_true_iff in Hx. destruct Hx as [X1 X2].
    apply Z.leb_le in X1. apply Z.ltb_lt in X2.
    pose proof (aligned_bins (normalize (datetime b)) w c a j (datetime x) Hw Hc
                  (conj X1 X2)) as A.
    unfold in_bin in *. cbn [datetime] in A. exact A.
Qed.

Lemma Forall2_map_same {A B : Type} (R : B -> B -> Prop) (f g : A -> B) (l : list A) :
  (forall a, In a l -> R (f a) (g a)) -> Forall2 R (map f l) (map g l).
Proof.
  induction l as [|a l IH]; intros H; cbn [map]; constructor.
  - apply H. left. reflexivity.
  - apply IH. intros x Hx. apply H. right. exact Hx.
Qed.

Lemma chain_group method w c s E :
  0 < w -> 0 < c -> chronological s -> In E (bin_edges (c * w) s) ->
  same_prices
    (agg_bar method E
       (bucket (c * w)
               (map (fun e => agg_bar method e (bucket w s e)) (bin_edges w s)) E))
    (agg_bar method E (bucket (c * w) s E)).
Proof.
  intros Hw Hc Hs HE. unfold bucket at 1. rewrite filter_map_swap.
  unfold in_bin at 1. cbn [datetime agg_bar].
  set (ES := filter (fun e => (E <=? e) && (e <? E + c * w)) (bin_edges w s)).
  pose proof (chain_bucket w c s E Hw Hc Hs HE) as Hcat. fold ES in Hcat.
  unfold same_prices. cbn [datetime open high low close volume agg_bar].
  rewrite !map_map. cbn [open high low close volume agg_bar].
  rewrite <- Hcat.
  rewrite <- (first_valid_groups open), <- (nanmax_groups high),
          <- (nanmin_groups low), <- (last_valid_groups close),
          <- sum_int64_groups.
  rewrite !map_map. repeat split.
Qed.

(** Resampling to a width and then to a multiple of it gives the rows of
    resampling to the multiple at once, as far as timestamps, prices and
    volumes go. *)
Lemma chain_rows method w c l :
  0 < w -> 0 < c ->
  Forall2 same_prices
          (resample_rows method (c * w) (resample_rows method w l))
          (resample_rows method (c * w) l).
Proof.
  intros Hw Hc. unfold resample_rows at 1 3.
  rewrite (sort_index_fixed (resample_rows method w l))
    by (apply resample_rows_chronological, Hw).
  rewrite chain_edges by assumption.
  apply Forall2_map_same. intros E HE.
  unfold resample_rows.
  apply chain_group; auto. apply sort_index_chronological.
Qed.

Lemma same_prices_trans r1 r2 r3 :
  same_prices r1 r2 -> same_prices r2 r3 -> same_prices r1 r3.
Proof.
  unfold same_prices. intuition congruence.
Qed.

Lemma Forall2_same_prices_trans l1 l2 l3 :
  Forall2 same_prices l1 l2 -> Forall2 same_prices l2 l3 ->
  Forall2 same_prices l1 l3.
Proof.
  intros H. revert l3. induction H as [|a b l1 l2 Hab H12 IH]; intros l3 H23.
  - inversion H23; subst. constructor.
  - inversion H23 as [|? c ? l3' Hbc H23']; subst. constructor.
    + eapply same_prices_trans; eassumption.
    + apply IH, H23'.
Qed.

Lemma supported_divides_day decimal interval :
  In interval Collector.intervals -> (bin_width decimal interval | day_nanos).
Proof.
  intros [<-|[<-|[<-|[<-|[]]]]].
  - exists 1440. reflexivity.
  - exists 288. reflexivity.
  - exists 24. reflexivity.
  - exists 1. reflexivity.
Qed.

(** Every output timestamp is a whole number of bin widths: on the minute,
    on a multiple of five minutes, on the hour, at midnight. *)
Theorem resample_labels_aligned decimal method data interval :
  In interval Collector.intervals ->
  exists out,
    Resampler.resample decimal method data interval = Some out
    /\ forall r, In r (rows out) -> datetime r mod bin_width decimal interval = 0.
Proof.
  intros Hin. destruct (supported_tick decimal interval Hin) as [_ Hw].
  eexists. split; [apply resample_supported, Hin|]. cbn [rows].
  intros r Hr. apply (in_map datetime) in Hr.
  rewrite resample_rows_labels in Hr.
  destruct (sort_index (rows data)) as [|b rest] eqn:E; [destruct Hr|].
  assert (Hs : chronological (b :: rest))
    by (rewrite <- E; apply sort_index_chronological).
  destruct (in_closed_edges _ b rest _ Hw Hs Hr) as (a & ->).
  destruct (supported_divides_day decimal interval Hin) as (q & Hq).
  unfold normalize. rewrite Hq.
  replace (datetime b / (q * bin_width decimal interval) * (q * bin_width decimal interval)
           + a * bin_width decimal interval)
    with ((datetime b / (q * bin_width decimal interval) * q + a) * bin_width decimal interval) by lia.
  apply Z.mod_mul. lia.
Qed.

Lemma resample_labels_aligned_witness :
  In "1H" Collector.intervals
  /\ exists out,
       Resampler.resample arabic_indic KahanReset gap_day "1H" = Some out
       /\ forall r, In r (rows out) -> datetime r mod hour_nanos = 0.
Proof.
  assert (H : In "1H" Collector.intervals) by (simpl; auto).
  split; [exact H|].
  exact (resample_labels_aligned arabic_indic KahanReset gap_day "1H" H).
Defined.

(** The output is in ascending order of timestamp, without a repeated
    timestamp, so that it is a series that [resample] takes as it is. *)
Theorem resample_output_ascending decimal method data interval :
  In interval Collector.intervals ->
  exists out,
    Resampler.resample decimal method data interval = Some out
    /\ StronglySorted (fun r r' => datetime r < datetime r') (rows out)
    /\ sort_index (rows out) = rows out.
Proof.
  intros Hin. destruct (supported_tick decimal interval Hin) as [_ Hw].
  eexists. split; [apply resample_supported, Hin|]. cbn [rows]. split.
  - apply resample_rows_increasing, Hw.
  - apply sort_index_fixed, resample_rows_chronological, Hw.
Qed.

Lemma resample_output_ascending_witness :
  In "5M" Collector.intervals
  /\ exists out,
       Resampler.resample arabic_indic KahanReset gap_day "5M" = Some out
       /\ StronglySorted (fun r r' => datetime r < datetime r') (rows out).
Proof.
  assert (H : In "5M" Collector.intervals) by (simpl; auto).
  split; [exact H|].
  destruct (resample_output_ascending arabic_indic KahanReset gap_day "5M" H) as (out & E & S & _).
  exists out. split; assumption.
Defined.

(** Resampling to one interval of the program and then to a second whose
    width is a multiple of the first gives, row for row, the timestamps,
    open, high, low, close and volume of resampling to the second at once. *)
Theorem resample_chained_equals_direct decimal method data first second :
  In first Collector.intervals -> In second Collector.intervals ->
  (bin_width decimal first | bin_width decimal second) ->
  exists mid chained direct,
    Resampler.resample decimal method data first = Some mid
    /\ Resampler.resample decimal method mid second = Some chained
    /\ Resampler.resample decimal method data second = Some direct
    /\ Forall2 same_prices (rows chained) (rows direct).
Proof.
  intros H1 H2 (c & Hc).
  destruct (supported_tick decimal first H1) as [_ Hw1].
  destruct (supported_tick decimal second H2) as [_ Hw2].
  assert (Hc0 : 0 < c) by nia.
  do 3 eexists. split; [apply resample_supported, H1|].
  split; [apply resample_supported, H2|].
  split; [apply resample_supported, H2|].
  cbn [rows]. rewrite Hc. apply chain_rows; assumption.
Qed.

Lemma resample_chained_equals_direct_witness :
  In "5M" Collector.intervals /\ In "1H" Collector.intervals
  /\ (bin_width arabic_indic "5M" | bin_width arabic_indic "1H")
  /\ exists mid chained direct,
       Resampler.resample arabic_indic KahanReset gap_day "5M" = Some mid
       /\ Resampler.resample arabic_indic KahanReset mid "1H" = Some chained
       /\ Resampler.resample arabic_indic KahanReset gap_day "1H" = Some direct
       /\ Forall2 same_prices (rows chained) (rows direct).
Proof.
  assert (H1 : In "5M" Collector.intervals) by (simpl; auto).
  assert (H2 : In "1H" Collector.intervals) by (simpl; auto).
  assert (Hd : (bin_width arabic_indic "5M" | bin_width arabic_indic "1H")) by (exists 12; reflexivity).
  split; [exact H1|]. split; [exact H2|]. split; [exact Hd|].
  exact (resample_chained_equals_direct arabic_indic KahanReset gap_day "5M" "1H" H1 H2 Hd).
Defined.

(** Every table [collect] stores for a ticker has the timestamps, open,
    high, low, close and volume of the fetched series resampled at once to
    the interval of the table: the chain changes none of them. *)
Theorem collect_stages_match_direct decimal method history self d ticker s :
  chained decimal method history self d ticker s ->
  exists hourly daily,
    Resampler.resample decimal method (stage_1M s) "1H" = Some hourly
    /\ Resampler.resample decimal method (stage_1M s) "1D" = Some daily
    /\ Forall2 same_prices (rows (stage_1H s)) (rows hourly)
    /\ Forall2 same_prices (rows (stage_1D s)) (rows daily).
Proof.
  intros (_ & E5 & E1 & ED).
  assert (I5 : In "5M" Collector.intervals) by (simpl; auto).
  assert (I1 : In "1H" Collector.intervals) by (simpl; auto).
  assert (ID : In "1D" Collector.intervals) by (simpl; auto 6).
  rewrite (resample_supported decimal method _ "5M" I5) in E5.
  rewrite (resample_supported decimal method _ "1H" I1) in E1.
  rewrite (resample_supported decimal method _ "1D" ID) in ED.
  injection E5 as E5. injection E1 as E1. injection ED as ED.
  do 2 eexists.
  split; [apply resample_supported, I1|].
  split; [apply resample_supported, ID|].
  rewrite <- ED, <- E1, <- E5. cbn [rows].
  assert (M5 : 0 < bin_width decimal "5M") by reflexivity.
  assert (M1 : 0 < bin_width decimal "1H") by reflexivity.
  split.
  - change (bin_width decimal "1H") with (12 * bin_width decimal "5M").
    apply chain_rows; lia.
  - eapply Forall2_same_prices_trans.
    + change (bin_width decimal "1D") with (24 * bin_width decimal "1H").
      apply chain_rows; lia.
    + change (24 * bin_width decimal "1H") with (288 * bin_width decimal "5M").
      apply chain_rows; lia.
Qed.

Lemma collect_stages_match_direct_witness :
  let self := built ["AAPL"] "prices" "dinero-collector/yfinance" in
  let d := Date 2024 1 2 in
  exists s,
    chained arabic_indic KahanReset gap_history self d "AAPL" s
    /\ exists hourly daily,
         Resampler.resample arabic_indic KahanReset (stage_1M s) "1H" = Some hourly
         /\ Resampler.resample arabic_indic KahanReset (stage_1M s) "1D" = Some daily
         /\ Forall2 same_prices (rows (stage_1H s)) (rows hourly)
         /\ Forall2 same_prices (rows (stage_1D s)) (rows daily).
Proof.
  intros self d.
  assert (Hr : reliable always) by (intros s w'; reflexivity).
  destruct (collect_ticker_run arabic_indic KahanReset gap_history always self d "AAPL"
              (rows gap_day) (mkWorld [] []) Hr eq_refl) as (s & Hs & _).
  exists s. split; [exact Hs|].
  exact (collect_stages_match_direct arabic_indic KahanReset gap_history self d "AAPL" s Hs).
Defined.

(** ** Bars that make sense stay so *)

Lemma first_of_member f group v :
  first_of f group v ->
  (exists b, In b group /\ PrimFloat.is_nan (f b) = false /\ v = f b)
  \/ Forall (missing f) group.
Proof.
  intros [(pre & b & post & -> & _ & Hb & Hv) | [Hall _]]; [left | right; exact Hall].
  exists b. split; [apply in_or_app; right; left; reflexivity | auto].
Qed.

Lemma last_of_member f group v :
  last_of f group v ->
  (exists b, In b group /\ PrimFloat.is_nan (f b) = false /\ v = f b)
  \/ Forall (missing f) group.
Proof.
  intros [(pre & b & post & -> & _ & Hb & Hv) | [Hall _]]; [left | right; exact Hall].
  exists b. split; [apply in_or_app; right; left; reflexivity | auto].
Qed.

Lemma not_all_missing f b group :
  In b group -> PrimFloat.is_nan (f b) = false -> ~ Forall (missing f) group.
Proof.
  intros Hb Hn Hall. rewrite Forall_forall in Hall.
  specialize (Hall b Hb). unfold missing in Hall. congruence.
Qed.

Lemma agg_bar_consistent method edge group :
  group <> [] -> Forall complete group -> Forall consistent group ->
  complete (agg_bar method edge group) /\ consistent (agg_bar method edge group).
Proof.
  intros Hne Hc Hk. destruct group as [|b0 rest]; [congruence|].
  set (g := b0 :: rest) in *.
  assert (H0 : In b0 g) by (left; reflexivity).
  rewrite Forall_forall in Hc, Hk.
  destruct (Hc b0 H0) as (C1 & C2 & C3 & C4).
  destruct (first_of_member open g _ (first_valid_first_of open g))
    as [(bo & Ho & No & Eo) | Hall]; [|destruct (not_all_missing open b0 g H0 C1 Hall)].
  destruct (last_of_member close g _ (last_valid_last_of close g))
    as [(bc & Hbc & Nc & Ec) | Hall]; [|destruct (not_all_missing close b0 g H0 C4 Hall)].
  destruct (nanmax_max_of high g)
    as [(bh & Hh & Nh & Eh & Uh) | [Hall _]]; [|destruct (not_all_missing high b0 g H0 C2 Hall)].
  destruct (nanmin_min_of low g)
    as [(bl & Hl & Nl & El & Ul) | [Hall _]]; [|destruct (not_all_missing low b0 g H0 C3 Hall)].
  unfold complete, consistent. cbn [open high low close agg_bar].
  rewrite Eo, Ec. rewrite Eh in *. rewrite El in *.
  destruct (Hc bo Ho) as (_ & Oh & Ol & _), (Hk bo Ho) as (K1 & K2 & _ & _).
  destruct (Hc bc Hbc) as (_ & Ch & Cl & _), (Hk bc Hbc) as (_ & _ & K3 & K4).
  repeat split; auto.
  - apply leb_trans with (low bo); [apply Ul; assumption | exact K1].
  - apply leb_trans with (high bo); [exact K2 | apply Uh; assumption].
  - apply leb_trans with (low bc); [apply Ul; assumption | exact K3].
  - apply leb_trans with (high bc); [exact K4 | apply Uh; assumption].
Qed.

(** When no price of the input is missing and every input bar has its
    low at most its open and close and these at most its high, every
    output bar whose bin holds an input bar is the same: no price missing,
    low at most open and close, open and close at most high. *)
Theorem resample_keeps_bars_consistent decimal method data interval :
  In interval Collector.intervals ->
  Forall complete (rows data) -> Forall consistent (rows data) ->
  exists out,
    Resampler.resample decimal method data interval = Some out
    /\ forall r, In r (rows out) ->
         bucket (bin_width decimal interval) (sort_index (rows data)) (datetime r) <> [] ->
         complete r /\ consistent r.
Proof.
  intros Hin Hc Hk. eexists. split; [apply resample_supported, Hin|]. cbn [rows].
  intros r Hr Hne. unfold resample_rows in Hr. apply in_map_iff in Hr.
  destruct Hr as (e & <- & He). cbn [datetime agg_bar] in Hne.
  assert (Hsub : forall P : Bar -> Prop, Forall P (rows data) ->
            Forall P (bucket (bin_width decimal interval) (sort_index (rows data)) e)).
  { intros P HP. rewrite Forall_forall in *. intros b Hb.
    unfold bucket in Hb. apply filter_In in Hb. destruct Hb as [Hb _].
    apply HP. eapply Permutation_in; [apply sort_index_perm | exact Hb]. }
  apply agg_bar_consistent; auto.
Qed.

Lemma resample_keeps_bars_consistent_witness :
  In "5M" Collector.intervals
  /\ Forall complete (rows gap_day) /\ Forall consistent (rows gap_day)
  /\ exists out,
       Resampler.resample arabic_indic KahanReset gap_day "5M" = Some out
       /\ forall r, In r (rows out) ->
            bucket (bin_width arabic_indic "5M") (sort_index (rows gap_day)) (datetime r) <> [] ->
            complete r /\ consistent r.
Proof.
  assert (H : In "5M" Collector.intervals) by (simpl; auto).
  assert (Hc : Forall complete (rows gap_day))
    by (repeat constructor; vm_compute; reflexivity).
  assert (Hk : Forall consistent (rows gap_day))
    by (repeat constructor; vm_compute; reflexivity).
  split; [exact H|]. split; [exact Hc|]. split; [exact Hk|].
  exact (resample_keeps_bars_consistent arabic_indic KahanReset gap_day "5M" H Hc Hk).
Defined.


(** ** What every run leaves behind *)

Lemma adds_ret {A : Type} (ok : Prop) (P : Line -> Upload -> Prop) (Q : A -> Prop) (a : A) :
  Q a -> adds ok P Q (ret a).
Proof.
  intros H w. exists [], [], []. cbn. rewrite !app_nil_r.
  do 5 (split; [auto|]). intros a' E. inversion E; subst. split; [reflexivity | exact H].
Qed.

Lemma adds_lift {A : Type} (ok : Prop) (P : Line -> Upload -> Prop) (Q : A -> Prop)
    (o : option A) :
  (forall a, o = Some a -> Q a) -> adds ok P Q (lift o).
Proof.
  intros H w. exists [], [], []. cbn. rewrite !app_nil_r.
  do 5 (split; [auto|]). intros a E. split; [reflexivity | exact (H a E)].
Qed.

Lemma adds_bind {A B : Type} (ok : Prop) (P : Line -> Upload -> Prop) (Q : A -> Prop)
    (R : B -> Prop) (m : M A) (k : A -> M B) :
  adds ok P Q m -> (forall a, Q a -> adds ok P R (k a)) -> adds ok P R (bindM m k).
Proof.
  intros Hm Hk w. destruct (Hm w) as (l1 & u1 & p1 & S1 & U1 & F1 & L1 & K1 & Q1).
  unfold bindM. destruct (m w) as [[a|] w1]; cbn [fst snd] in *.
  - destruct (Q1 a eq_refl) as [-> Qa]. rewrite app_nil_r in S1.
    destruct (Hk a Qa w1) as (l2 & u2 & p2 & S2 & U2 & F2 & L2 & K2 & Q2).
    exists (l1 ++ l2)%list, (u1 ++ u2)%list, p2.
    rewrite S2, U2, S1, U1, <- !app_assoc.
    do 2 (split; [reflexivity|]). split; [apply Forall2_app; assumption|].
    split; [exact L2|]. split; [exact K2 | exact Q2].
  - exists l1, u1, p1. do 5 (split; [assumption|]). intros b E; discriminate E.
Qed.

Lemma adds_for_each {A : Type} (ok : Prop) (P : Line -> Upload -> Prop) (l : list A)
    (body : A -> M unit) :
  (forall x, In x l -> adds ok P (fun _ => True) (body x)) ->
  adds ok P (fun _ => True) (for_each l body).
Proof.
  induction l as [|x l IH]; intros H; cbn [for_each].
  - apply adds_ret. exact I.
  - apply (adds_bind ok P (fun _ => True)).
    + apply H. left. reflexivity.
    + intros _ _. apply IH. intros y Hy. apply H. right. exact Hy.
Qed.

Lemma resample_columns decimal method prev interval out :
  Resampler.resample decimal method prev interval = Some out ->
  columns out = YFinanceCollector.columns.
Proof.
  unfold Resampler.resample. destruct (to_offset _) as [[w|n]|]; try discriminate.
  destruct (mapM _ _); cbn [bind]; intros H; inversion H; reflexivity.
Qed.

Section Runs.

Variable decimal : string -> bool.
Variable method : summation.
Variable history : string -> string -> string -> string -> option (list Bar).
Variable succeeds : step -> World -> bool.
Variable self : Collector.t.
Variable dates : list date.

Lemma save_ticker_data_adds data d ticker interval :
  In d dates -> In ticker (Collector.tickers self) -> In interval Collector.intervals ->
  columns data = YFinanceCollector.columns ->
  adds (reliable succeeds) (run_step self dates) (fun _ => True)
       (Collector.save_ticker_data succeeds self data d ticker interval).
Proof.
  intros Hd Ht Hi Hc w.
  assert (Hs : run_step self dates (printed self d ticker interval data)
                 (stored self d ticker interval data)).
  { split; [split; reflexivity|].
    split; [reflexivity|]. split; [exact Hc|].
    exists d, ticker, interval. repeat split; auto. }
  destruct (save_ticker_data_cases succeeds self data d ticker interval w)
    as [E|[E|E]].
  - exists [printed self d ticker interval data],
           [stored self d ticker interval data], [].
    rewrite E. cbn [fst snd uploads stdout]. rewrite app_nil_r.
    do 2 (split; [reflexivity|]). split; [constructor; [exact Hs | constructor]|].
    split; [cbn; lia|]. split; [reflexivity|]. intros a _. split; [reflexivity | exact I].
  - exists [printed self d ticker interval data],
           [stored self d ticker interval data], [].
    rewrite E. cbn [fst snd uploads stdout]. rewrite app_nil_r.
    do 2 (split; [reflexivity|]). split; [constructor; [exact Hs | constructor]|].
    split; [cbn; lia|]. split; [reflexivity|]. intros a _. split; [reflexivity | exact I].
  - exists [], [], [printed self d ticker interval data].
    assert (Hn : reliable succeeds -> False).
    { intros Hr. rewrite (save_ticker_data_run succeeds) in E by exact Hr.
      discriminate E. }
    rewrite E. cbn [fst snd uploads stdout]. rewrite app_nil_r.
    do 2 (split; [reflexivity|]). split; [constructor|].
    split; [cbn; lia|]. split; [intros Hr; destruct (Hn Hr)|].
    intros a Ea; discriminate Ea.
Qed.

Lemma collect_intervals_adds d ticker todo data :
  In d dates -> In ticker (Collector.tickers self) ->
  incl todo Collector.intervals ->
  columns data = YFinanceCollector.columns ->
  adds (reliable succeeds) (run_step self dates) (fun _ => True)
       (Collector.collect_intervals decimal method succeeds self d ticker data todo).
Proof.
  intros Hd Ht. revert data. induction todo as [|interval rest IH]; intros data Hi Hc;
    cbn [Collector.collect_intervals].
  - apply adds_ret. exact I.
  - apply (adds_bind _ (run_step self dates)
             (fun df => columns df = YFinanceCollector.columns)).
    + destruct (negb (String.eqb interval Collector.collect_interval)).
      * apply adds_lift. intros a E. eapply resample_columns, E.
      * apply adds_ret, Hc.
    + intros df Hdf. apply (adds_bind _ (run_step self dates) (fun _ => True)).
      * apply save_ticker_data_adds; auto. apply Hi. left. reflexivity.
      * intros _ _. apply IH; auto. intros x Hx. apply Hi. right. exact Hx.
Qed.

Lemma collect_ticker_adds d ticker :
  In d dates -> In ticker (Collector.tickers self) ->
  adds (reliable succeeds) (run_step self dates) (fun _ => True)
       (Collector.collect_ticker decimal method history succeeds self d ticker).
Proof.
  intros Hd Ht. unfold Collector.collect_ticker.
  apply (adds_bind _ (run_step self dates)
           (fun df => columns df = YFinanceCollector.columns)).
  - unfold YFinanceCollector.collect.
    apply (adds_bind _ (run_step self dates) (fun _ => True)); [apply adds_lift; auto|].
    intros bars _. apply adds_ret. reflexivity.
  - intros df Hdf. apply collect_intervals_adds; auto. apply incl_refl.
Qed.

Lemma collect_adds d :
  In d dates ->
  adds (reliable succeeds) (run_step self dates) (fun _ => True)
       (Collector.collect decimal method history succeeds self d).
Proof.
  intros Hd. unfold Collector.collect. apply adds_for_each.
  intros ticker Ht. apply collect_ticker_adds; assumption.
Qed.

Lemma collect_many_adds :
  adds (reliable succeeds) (run_step self dates) (fun _ => True)
       (Collector.collect_many decimal method history succeeds self dates).
Proof.
  unfold Collector.collect_many. apply adds_for_each.
  intros d Hd. apply collect_adds, Hd.
Qed.

End Runs.

(** Whatever a run of [collect_many] does, and wherever it stops, it only
    adds objects to the store, none is taken away, and every object it adds
    is in the bucket of the collector, has the eight column labels as its
    header, and is named path/ticker/interval/date.csv for one of the dates
    asked for, one of the tickers of the collector and one of 1M, 5M, 1H,
    1D. *)
Theorem collect_many_only_adds_well_placed decimal method history succeeds self dates w :
  exists ups,
    uploads (snd (Collector.collect_many decimal method history succeeds self dates w))
    = (uploads w ++ ups)%list
    /\ Forall (well_placed self dates) ups.
Proof.
  destruct (collect_many_adds decimal method history succeeds self dates w)
    as (lines & ups & pending & _ & U & F & _).
  exists ups. split; [exact U|].
  clear U. induction F as [|l u ls us Hlu _ IH]; constructor; [apply Hlu | exact IH].
Qed.

(** Whatever a run of [collect_many] does, and wherever it stops, every
    object it stores has been announced: the lines it prints are, in
    order, one line for each object stored, giving the name of the object
    and the number of its rows, followed by at most one more line, whose
    object was not stored.  There is no such line when the run returns,
    nor when every step of saving succeeds. *)
Theorem collect_many_announces_uploads decimal method history succeeds self dates w :
  exists lines ups pending,
    stdout (snd (Collector.collect_many decimal method history succeeds self dates w))
    = (stdout w ++ lines ++ pending)%list
    /\ uploads (snd (Collector.collect_many decimal method history succeeds self dates w))
       = (uploads w ++ ups)%list
    /\ Forall2 announced lines ups
    /\ (List.length pending <= 1)%nat
    /\ (fst (Collector.collect_many decimal method history succeeds self dates w) = Some tt ->
        pending = [])
    /\ (reliable succeeds -> pending = []).
Proof.
  destruct (collect_many_adds decimal method history succeeds self dates w)
    as (lines & ups & pending & S & U & F & L & K & Q).
  exists lines, ups, pending. split; [exact S|]. split; [exact U|].
  split; [|split; [exact L|split; [intros E; apply (Q tt E) | exact K]]].
  clear S U. induction F as [|l u ls us Hlu _ IH]; constructor; [apply Hlu | exact IH].
Qed.

(** A run in which the upload of the first object fails: the line is
    printed, nothing is stored. *)
Example collect_many_line_without_object :
  let self := built ["AAPL"] "prices" "dinero-collector/yfinance" in
  let fails (s : step) (w : World) :=
    match s with UploadObject _ => false | _ => true end in
  let run := Collector.collect_many arabic_indic KahanReset gap_history fails self
               [Date 2024 1 2] (mkWorld [] []) in
  fst run = None /\ uploads (snd run) = [] /\ List.length (stdout (snd run)) = 1%nat.
Proof. vm_compute. repeat split. Qed.

(** ** Runs that succeed, runs that stop *)

Lemma for_each_app {A : Type} (l1 l2 : list A) (body : A -> M unit) w :
  for_each (l1 ++ l2) body w
  = match for_each l1 body w with
    | (Some _, w1) => for_each l2 body w1
    | (None, w1) => (None, w1)
    end.
Proof.
  revert w. induction l1 as [|x l1 IH]; intros w; [reflexivity|].
  cbn [app for_each]. unfold bindM.
  destruct (body x w) as [[u|] w1]; [apply IH | reflexivity].
Qed.

Lemma collect_ticker_raises decimal method history succeeds self d ticker w :
  fetched history self d ticker = None ->
  Collector.collect_ticker decimal method history succeeds self d ticker w = (None, w).
Proof.
  intros H. unfold fetched in H.
  unfold Collector.collect_ticker, YFinanceCollector.collect, bindM, lift.
  rewrite H. reflexivity.
Qed.

(** When every step of saving succeeds and the fetch of a ticker raises,
    [collect] raises: the tables of the tickers before it are stored,
    chained as ever, and nothing is stored for that ticker or for any
    ticker after it. *)
Theorem collect_stops_at_failed_fetch decimal method history succeeds self d w before ticker after :
  reliable succeeds ->
  Collector.tickers self = (before ++ ticker :: after)%list ->
  Forall (fun t => fetched history self d t <> None) before ->
  fetched history self d ticker = None ->
  exists stages,
    Forall2 (chained decimal method history self d) before stages
    /\ fst (Collector.collect decimal method history succeeds self d w) = None
    /\ uploads (snd (Collector.collect decimal method history succeeds self d w))
       = (uploads w ++ flat_map (stage_uploads self d) (combine before stages))%list.
Proof.
  intros Hr Et Hok Hfail. unfold Collector.collect. rewrite Et, for_each_app.
  destruct (for_each_ticker_run decimal method history succeeds self d before w Hr Hok)
    as (stages & Hst & Hrun).
  exists stages. split; [exact Hst|]. rewrite Hrun.
  cbn [for_each]. unfold bindM.
  rewrite collect_ticker_raises by exact Hfail. split; reflexivity.
Qed.

Lemma collect_stops_at_failed_fetch_witness :
  let self := built ["AAPL"; "NOPE"; "MSFT"] "prices" "dinero-collector/yfinance" in
  let d := Date 2024 1 2 in
  let w := mkWorld [] [] in
  reliable always
  /\ Collector.tickers self = (["AAPL"] ++ "NOPE" :: ["MSFT"])%list
  /\ Forall (fun t => fetched aapl_history self d t <> None) ["AAPL"]
  /\ fetched aapl_history self d "NOPE" = None
  /\ exists stages,
       Forall2 (chained arabic_indic KahanReset aapl_history self d) ["AAPL"] stages
       /\ fst (Collector.collect arabic_indic KahanReset aapl_history always self d w) = None
       /\ uploads (snd (Collector.collect arabic_indic KahanReset aapl_history always self d w))
          = flat_map (stage_uploads self d) (combine ["AAPL"] stages).
Proof.
  intros self d w.
  assert (Hr : reliable always) by (intros s w'; reflexivity).
  assert (Et : Collector.tickers self = (["AAPL"] ++ "NOPE" :: ["MSFT"])%list)
    by reflexivity.
  assert (Hok : Forall (fun t => fetched aapl_history self d t <> None) ["AAPL"])
    by (repeat constructor; discriminate).
  assert (Hfail : fetched aapl_history self d "NOPE" = None) by reflexivity.
  split; [exact Hr|]. split; [exact Et|]. split; [exact Hok|]. split; [exact Hfail|].
  exact (collect_stops_at_failed_fetch arabic_indic KahanReset aapl_history always self d w
           ["AAPL"] "NOPE" ["MSFT"] Hr Et Hok Hfail).
Defined.

Lemma stage_uploads_length self d (l : list string) (stages : list Stages) :
  List.length l = List.length stages ->
  List.length (flat_map (stage_uploads self d) (combine l stages))
  = (4 * List.length l)%nat.
Proof.
  revert stages. induction l as [|t l IH]; intros [|s stages] H;
    try discriminate; [reflexivity|].
  cbn [combine flat_map]. rewrite length_app.
  cbn [List.length] in *. rewrite IH by lia. cbn [stage_uploads List.length]. lia.
Qed.

Lemma collect_run_length decimal method history succeeds self d w :
  reliable succeeds ->
  Forall (fun t => fetched history self d t <> None) (Collector.tickers self) ->
  exists w',
    Collector.collect decimal method history succeeds self d w = (Some tt, w')
    /\ List.length (uploads w')
       = (List.length (uploads w) + 4 * List.length (Collector.tickers self))%nat.
Proof.
  intros Hr H. unfold Collector.collect.
  destruct (for_each_ticker_run decimal method history succeeds self d
              (Collector.tickers self) w Hr H)
    as (stages & Hst & Hrun).
  eexists. split; [exact Hrun|]. cbn [uploads].
  rewrite length_app, stage_uploads_length; [reflexivity|].
  eapply Forall2_length, Hst.
Qed.

(** When every fetch and every step of saving succeeds, [collect_many]
    returns and stores four objects for every ticker on every date: as
    many as four times the number of tickers times the number of dates. *)
Theorem collect_many_stores_four_each decimal method history succeeds self dates w :
  reliable succeeds ->
  (forall d, In d dates ->
     Forall (fun t => fetched history self d t <> None) (Collector.tickers self)) ->
  fst (Collector.collect_many decimal method history succeeds self dates w) = Some tt
  /\ List.length
       (uploads (snd (Collector.collect_many decimal method history succeeds self dates w)))
     = (List.length (uploads w)
        + 4 * List.length (Collector.tickers self) * List.length dates)%nat.
Proof.
  intros Hr. unfold Collector.collect_many. revert w.
  induction dates as [|d dates IH]; intros w H; cbn [for_each].
  - cbn. split; [reflexivity | lia].
  - destruct (collect_run_length decimal method history succeeds self d w Hr
                (H d (or_introl eq_refl)))
      as (w' & Hrun & Hlen).
    unfold bindM. rewrite Hrun.
    destruct (IH w' (fun d' Hd' => H d' (or_intror Hd'))) as [R L].
    split; [exact R|]. rewrite L, Hlen. cbn [List.length]. lia.
Qed.

Lemma collect_many_stores_four_each_witness :
  let self := built ["AAPL"; "MSFT"] "prices" "dinero-collector/yfinance" in
  let dates := [Date 2024 1 2; Date 2024 1 3; Date 2024 1 4] in
  reliable always
  /\ (forall d, In d dates ->
       Forall (fun t => fetched gap_history self d t <> None) (Collector.tickers self))
  /\ List.length
       (uploads (snd (Collector.collect_many arabic_indic KahanReset gap_history always self dates
                        (mkWorld [] []))))
     = 24%nat.
Proof.
  intros self dates.
  assert (Hr : reliable always) by (intros s w'; reflexivity).
  assert (H : forall d, In d dates ->
            Forall (fun t => fetched gap_history self d t <> None) (Collector.tickers self))
    by (intros d _; repeat constructor; discriminate).
  split; [exact Hr|]. split; [exact H|].
  exact (proj2 (collect_many_stores_four_each arabic_indic KahanReset gap_history always self dates
                  (mkWorld [] []) Hr H)).
Defined.

(** ** Object names *)

Lemma chars_inj s t : chars s = chars t -> s = t.
Proof.
  unfold chars. intros H.
  rewrite <- (string_of_list_ascii_of_string s), H.
  apply string_of_list_ascii_of_string.
Qed.

Lemma chars_cons c s : chars (String c s) = c :: chars s.
Proof. reflexivity. Qed.

Lemma app_eq_same_tail_length {A : Type} (l1 l1' l2 l2' : list A) :
  (l1 ++ l2 = l1' ++ l2')%list -> List.length l2 = List.length l2' ->
  l1 = l1' /\ l2 = l2'.
Proof.
  intros E Hlen.
  assert (Hl : List.length l1 = List.length l1').
  { apply (f_equal (@List.length A)) in E. rewrite !length_app in E. lia. }
  clear Hlen. revert l1' E Hl.
  induction l1 as [|x l1 IH]; intros [|y l1'] E Hl; try discriminate.
  - split; [reflexivity | exact E].
  - cbn [app] in E. injection E as -> E. injection Hl as Hl.
    destruct (IH l1' E Hl) as [-> ->]. split; reflexivity.
Qed.

Lemma string_app_assoc (a b c : string) : ((a ++ b) ++ c)%string = (a ++ b ++ c)%string.
Proof.
  induction a as [|x a IH]; cbn [append]; [reflexivity|]. rewrite IH. reflexivity.
Qed.

Lemma save_path_chars self d ticker interval :
  chars (save_path self d ticker interval)
  = (chars (Collector.upload_path self)
     ++ ("/"%char :: chars ticker)
     ++ ("/"%char :: chars interval)
     ++ "/"%char :: chars (date_stamp d ++ ".csv"))%list.
Proof.
  unfold save_path, date_stamp.
  rewrite chars_app. cbn [append]. rewrite chars_cons, chars_app.
  cbn [append]. rewrite chars_cons, chars_app. cbn [append app].
  rewrite chars_cons, !string_app_assoc. reflexivity.
Qed.

(** Two object names of one date are equal only for the same ticker and
    the same interval, when the intervals have the same length. *)
Lemma save_path_inj self d t t' i i' :
  save_path self d t i = save_path self d t' i' ->
  String.length i = String.length i' ->
  t = t' /\ i = i'.
Proof.
  intros E Hlen. apply (f_equal chars) in E. rewrite !save_path_chars in E.
  apply app_inv_head in E.
  assert (Hl : List.length (chars i) = List.length (chars i')).
  { clear E. revert i' Hlen. induction i as [|c i IH]; intros [|c' i'] H;
      try discriminate; [reflexivity|].
    cbn [chars list_ascii_of_string List.length] in *.
    f_equal. apply IH. injection H as H. exact H. }
  apply app_eq_same_tail_length in E.
  - destruct E as [Et Ei]. injection Et as Et. apply chars_inj in Et.
    split; [exact Et|].
    apply (app_inv_tail _ ("/"%char :: chars i) ("/"%char :: chars i')) in Ei.
    injection Ei as Ei. apply chars_inj, Ei.
  - rewrite !length_app. cbn [List.length]. rewrite Hl. reflexivity.
Qed.

Lemma stage_upload_names self d (l : list string) (stages : list Stages) :
  List.length l = List.length stages ->
  map upload_blob (flat_map (stage_uploads self d) (combine l stages))
  = flat_map (fun t => map (save_path self d t) Collector.intervals) l.
Proof.
  revert stages. induction l as [|t l IH]; intros [|s stages] H;
    try discriminate; [reflexivity|].
  cbn [combine flat_map]. rewrite map_app, IH by (injection H as H; exact H).
  reflexivity.
Qed.

Lemma intervals_same_length i i' :
  In i Collector.intervals -> In i' Collector.intervals ->
  String.length i = String.length i'.
Proof.
  intros [<-|[<-|[<-|[<-|[]]]]] [<-|[<-|[<-|[<-|[]]]]]; reflexivity.
Qed.

Lemma interval_names_distinct self d t (l : list string) :
  incl l Collector.intervals -> NoDup l -> NoDup (map (save_path self d t) l).
Proof.
  induction l as [|i l IH]; intros Hincl Hnd; cbn [map]; [constructor|].
  inversion Hnd as [|? ? Hni Hnd']; subst. constructor.
  - intros Hin. apply in_map_iff in Hin. destruct Hin as (i' & E & Hi').
    apply save_path_inj in E.
    + destruct E as [_ <-]. contradiction.
    + apply intervals_same_length; apply Hincl; [right; exact Hi' | left; reflexivity].
  - apply IH; [|exact Hnd']. intros x Hx. apply Hincl. right. exact Hx.
Qed.

Lemma names_distinct self d (l : list string) :
  NoDup l ->
  NoDup (flat_map (fun t => map (save_path self d t) Collector.intervals) l).
Proof.
  induction 1 as [|t l Ht Hl IH]; cbn [flat_map]; [constructor|].
  apply NoDup_app.
  - apply interval_names_distinct; [apply incl_refl|].
    repeat constructor; simpl; intuition discriminate.
  - exact IH.
  - intros name H1 H2. apply in_map_iff in H1. destruct H1 as (i & <- & Hi).
    apply in_flat_map in H2. destruct H2 as (t' & Ht' & H2).
    apply in_map_iff in H2. destruct H2 as (i' & E & Hi').
    apply save_path_inj in E.
    + destruct E as [-> _]. contradiction.
    + apply intervals_same_length; assumption.
Qed.

(** When the tickers of the collector are distinct and every fetch and
    every step of saving succeeds, the objects that one run of [collect]
    stores have distinct names: the run writes none of its objects
    twice. *)
Theorem collect_names_distinct decimal method history succeeds self d w :
  reliable succeeds ->
  NoDup (Collector.tickers self) ->
  Forall (fun t => fetched history self d t <> None) (Collector.tickers self) ->
  exists ups,
    uploads (snd (Collector.collect decimal method history succeeds self d w))
    = (uploads w ++ ups)%list
    /\ List.length ups = (4 * List.length (Collector.tickers self))%nat
    /\ NoDup (map upload_blob ups).
Proof.
  intros Hr Hnd Hok. unfold Collector.collect.
  destruct (for_each_ticker_run decimal method history succeeds self d
              (Collector.tickers self) w Hr Hok)
    as (stages & Hst & Hrun).
  pose proof (Forall2_length Hst) as Hlen.
  eexists. rewrite Hrun. cbn [snd uploads]. split; [reflexivity|]. split.
  - apply stage_uploads_length, Hlen.
  - rewrite stage_upload_names by exact Hlen. apply names_distinct, Hnd.
Qed.

Lemma collect_names_distinct_witness :
  let self := built ["AAPL"; "MSFT"] "prices" "dinero-collector/yfinance" in
  let d := Date 2024 1 2 in
  reliable always
  /\ NoDup (Collector.tickers self)
  /\ Forall (fun t => fetched gap_history self d t <> None) (Collector.tickers self)
  /\ exists ups,
       uploads (snd (Collector.collect arabic_indic KahanReset gap_history always self d
                       (mkWorld [] []))) = ups
       /\ List.length ups = 8%nat
       /\ NoDup (map upload_blob ups).
Proof.
  intros self d.
  assert (Hr : reliable always) by (intros s w'; reflexivity).
  assert (Hnd : NoDup (Collector.tickers self))
    by (repeat constructor; simpl; intuition discriminate).
  assert (Hok : Forall (fun t => fetched gap_history self d t <> None)
                       (Collector.tickers self))
    by (repeat constructor; discriminate).
  split; [exact Hr|]. split; [exact Hnd|]. split; [exact Hok|].
  destruct (collect_names_distinct arabic_indic KahanReset gap_history always self d
              (mkWorld [] []) Hr Hnd Hok)
    as (ups & E & L & N).
  exists ups. split; [exact E|]. split; [exact L | exact N].
Defined.


(** ** The entry point *)

Lemma split_not_nil sep s : split sep s <> [].
Proof.
  destruct s as [|c s]; cbn [split]; [discriminate|].
  destruct (Ascii.eqb c sep); [discriminate|].
  destruct (split sep s); discriminate.
Qed.

Lemma split_length sep s : List.length (split sep s) = S (count_char sep s).
Proof.
  induction s as [|c s IH]; cbn [split count_char]; [reflexivity|].
  destruct (Ascii.eqb c sep); cbn [List.length Nat.add].
  - rewrite IH. reflexivity.
  - destruct (split sep s) as [|word words]; cbn [List.length] in *; lia.
Qed.

Lemma join_split sep s : join sep (split sep s) = s.
Proof.
  induction s as [|c s IH]; cbn [split]; [reflexivity|].
  pose proof (split_not_nil sep s) as Hne.
  destruct (Ascii.eqb_spec c sep) as [->|Hc].
  - destruct (split sep s) as [|word words]; [congruence|].
    cbn [join append] in *. rewrite IH. reflexivity.
  - destruct (split sep s) as [|word words]; [congruence|].
    destruct words as [|word' words]; cbn [join append] in *; rewrite <- IH; reflexivity.
Qed.

Lemma split_words sep s : Forall (fun word => occurs sep word = false) (split sep s).
Proof.
  induction s as [|c s IH]; cbn [split].
  - repeat constructor.
  - destruct (Ascii.eqb c sep) eqn:Ec.
    + constructor; [reflexivity | exact IH].
    + destruct (split sep s) as [|word words].
      * repeat constructor. cbn [occurs]. rewrite Ec. reflexivity.
      * inversion IH; subst. constructor; [|assumption].
        cbn [occurs]. rewrite Ec. assumption.
Qed.

Lemma init_run succeeds tickers bucket path w :
  reliable succeeds ->
  Collector.init succeeds tickers bucket path w = (Some (built tickers bucket path), w).
Proof.
  intros Hr. unfold Collector.init, GCSManager.init, bindM, attempt, ret.
  rewrite Hr. reflexivity.
Qed.

(** The script collects for the fields of [--tickers] that single spaces
    separate, empty fields included: joined by spaces the tickers give the
    argument back, none holds a space, and there is one more of them than
    there are spaces.  When the key file is read, every fetch succeeds and
    every step of saving succeeds, it returns after storing four objects
    per field, for the day before the day it runs on. *)
Theorem main_collects_each_field decimal method history succeeds tickers bucket path today w :
  let self := built (split " " tickers) bucket path in
  reliable succeeds ->
  Forall (fun t => fetched history self (add_days today (-1)) t <> None)
         (Collector.tickers self) ->
  join " " (Collector.tickers self) = tickers
  /\ Forall (fun t => occurs " " t = false) (Collector.tickers self)
  /\ Main.main decimal method history succeeds tickers bucket path today w
     = Collector.collect decimal method history succeeds self (add_days today (-1)) w
  /\ fst (Main.main decimal method history succeeds tickers bucket path today w) = Some tt
  /\ List.length
       (uploads (snd (Main.main decimal method history succeeds tickers bucket path today w)))
     = (List.length (uploads w) + 4 * S (count_char " " tickers))%nat.
Proof.
  intros self Hr H.
  split; [apply join_split|]. split; [apply split_words|].
  assert (Em : Main.main decimal method history succeeds tickers bucket path today w
               = Collector.collect decimal method history succeeds self (add_days today (-1)) w).
  { unfold Main.main, bindM. rewrite init_run by exact Hr. reflexivity. }
  split; [exact Em|]. rewrite Em.
  destruct (collect_run_length decimal method history succeeds self (add_days today (-1)) w Hr H)
    as (w' & Hrun & Hlen).
  rewrite Hrun. cbn [fst snd]. split; [reflexivity|].
  rewrite Hlen. unfold self. cbn [Collector.tickers built].
  rewrite split_length. reflexivity.
Qed.

Lemma main_collects_each_field_witness :
  let tickers := "AAPL  MSFT" in
  let self := built (split " " tickers) "prices" Main.default_path in
  let today := Date 2024 3 1 in
  reliable always
  /\ Forall (fun t => fetched gap_history self (add_days today (-1)) t <> None)
            (Collector.tickers self)
  /\ Collector.tickers self = ["AAPL"; ""; "MSFT"]
  /\ add_days today (-1) = Date 2024 2 29
  /\ List.length
       (uploads (snd (Main.main arabic_indic KahanReset gap_history always tickers "prices"
                        Main.default_path today (mkWorld [] []))))
     = 12%nat.
Proof.
  intros tickers self today.
  assert (Hr : reliable always) by (intros s w'; reflexivity).
  assert (H : Forall (fun t => fetched gap_history self (add_days today (-1)) t <> None)
                     (Collector.tickers self))
    by (repeat constructor; discriminate).
  split; [exact Hr|]. split; [exact H|]. split; [reflexivity|]. split; [reflexivity|].
  destruct (main_collects_each_field arabic_indic KahanReset gap_history always tickers "prices"
              Main.default_path today (mkWorld [] []) Hr H) as (_ & _ & _ & _ & L).
  exact L.
Defined.

(** When the key file cannot be read, the script raises before it
    fetches or stores anything. *)
Example main_without_key_file :
  let no_key (s : step) (w : World) :=
    match s with ReadKeyFile => false | _ => true end in
  Main.main arabic_indic KahanReset gap_history no_key "AAPL" "prices" Main.default_path
            (Date 2024 3 1) (mkWorld [] [])
  = (None, mkWorld [] []).
Proof. reflexivity. Qed.

(** ** The interval label, again *)

(** Formatting a label that was formatted changes nothing. *)
Theorem format_interval_idempotent decimal (s : string) :
  Resampler.format_interval decimal (Resampler.format_interval decimal s)
  = Resampler.format_interval decimal s.
Proof.
  destruct (Resampler.re_match_digit_M decimal s) eqn:E.
  - assert (Hn : Resampler.re_match_digit_M decimal
                   (Resampler.format_interval decimal s) = false).
    { unfold Resampler.format_interval. rewrite E.
      unfold Resampler.re_match_digit_M in E.
      destruct (first_char s) as [[c rest]|] eqn:Ef; [|discriminate E].
      apply andb_true_iff in E. destruct E as [Ed Er].
      destruct (first_char_split s c rest Ef) as (Es & Hc & Hf).
      rewrite Es, replace_app, (decimal_without_M decimal c Hc Ed).
      unfold Resampler.re_match_digit_M. rewrite Hf, Ed.
      apply orb_true_iff in Er. destruct Er as [Er|Er];
        apply String.eqb_eq in Er; subst rest; reflexivity. }
    unfold Resampler.format_interval at 1. rewrite Hn. reflexivity.
  - unfold Resampler.format_interval. rewrite E, E. reflexivity.
Qed.

(** ** The day after *)

Lemma holds_on_sound ok fuel lo len :
  holds_on ok fuel lo len = true ->
  forall x, lo <= x < lo + len -> ok x = true.
Proof.
  revert lo len. induction fuel as [|fuel IH]; intros lo len H x Hx; cbn [holds_on] in H.
  - apply Z.leb_le in H. lia.
  - destruct (Z.leb_spec len 0) as [L|L]; [lia|].
    destruct (Z.eqb_spec len 1) as [E|E].
    + replace x with lo by lia. exact H.
    + apply andb_true_iff in H. destruct H as [H1 H2].
      pose proof (Z.div_mod len 2 ltac:(lia)).
      pose proof (Z.mod_pos_bound len 2 ltac:(lia)).
      destruct (Z.lt_ge_cases x (lo + len / 2)) as [C|C].
      * apply (IH lo (len / 2) H1). lia.
      * apply (IH (lo + len / 2) (len - len / 2) H2). lia.
Qed.

Lemma era_days_checked : holds_on era_day_ok 20 0 146097 = true.
Proof. vm_compute. reflexivity. Qed.

Lemma era_day_bounds doe :
  0 <= doe < 146097 -> era_day_ok doe = true.
Proof.
  intros H. apply (holds_on_sound era_day_ok 20 0 146097 era_days_checked). lia.
Qed.

(** Counting the days of the date that lies [z] days after 1970-01-01
    gives [z] back, and that date has a month from 1 to 12 and a day from
    1 to 31. *)
Lemma days_of_civil_from_days z :
  days_from_civil (year (civil_from_days z)) (month (civil_from_days z))
                  (day (civil_from_days z)) = z
  /\ 1 <= month (civil_from_days z) <= 12
  /\ 1 <= day (civil_from_days z) <= 31.
Proof.
  unfold civil_from_days. cbv zeta.
  set (z' := z + 719468). set (era := z' / 146097).
  set (doe := z' - era * 146097).
  assert (Hdoe : 0 <= doe < 146097).
  { unfold doe, era. pose proof (Z.div_mod z' 146097 ltac:(lia)).
    pose proof (Z.mod_pos_bound z' 146097 ltac:(lia)). lia. }
  pose proof (era_day_bounds doe Hdoe) as Hok. unfold era_day_ok in Hok.
  cbv zeta in Hok.
  set (yoe := (doe - doe / 1460 + doe / 36524 - doe / 146096) / 365) in *.
  set (doy := doe - (365 * yoe + yoe / 4 - yoe / 100)) in *.
  set (mp := (5 * doy + 2) / 153) in *.
  set (d := doy - (153 * mp + 2) / 5 + 1) in *.
  repeat (apply andb_true_iff in Hok; destruct Hok as [Hok ?]).
  repeat match goal with
         | H : (_ <=? _) = true |- _ => apply Z.leb_le in H
         end.
  cbn [year month day]. unfold days_from_civil. cbv zeta.
  destruct (Z.ltb_spec mp 10) as [Hmp|Hmp].
  - replace (mp + 3 <=? 2) with false by (symmetry; apply Z.leb_gt; lia).
    replace ((yoe + era * 400) / 400) with era
      by (apply (Z.div_unique_pos _ 400 era yoe); lia).
    replace ((mp + 3 + 9) mod 12) with mp
      by (apply (Z.mod_unique_pos _ 12 1 mp); lia).
    replace (yoe + era * 400 - era * 400) with yoe by lia.
    repeat split; try lia; unfold d, doy, doe, z'; lia.
  - replace (mp - 9 <=? 2) with true by (symmetry; apply Z.leb_le; lia).
    replace ((yoe + era * 400 + 1 - 1) / 400) with era
      by (apply (Z.div_unique_pos _ 400 era yoe); lia).
    replace ((mp - 9 + 9) mod 12) with mp
      by (apply (Z.mod_unique_pos _ 12 0 mp); lia).
    replace (yoe + era * 400 + 1 - 1 - era * 400) with yoe by lia.
    repeat split; try lia; unfold d, doy, doe, z'; lia.
Qed.

(** [YFinanceCollector.collect] asks the provider once, for the window
    from the date to the calendar day after it (the date whose day count
    is one more), both written year-month-day, at the interval of the
    collector; it returns the rows under the eight column labels, raises
    when the provider raises, and leaves the world as it was. *)
Theorem collect_asks_for_one_day history yf ticker d w :
  let next := add_days d 1 in
  YFinanceCollector.collect history yf ticker d w
  = (option_map (mkFrame YFinanceCollector.columns)
                (history ticker
                         (zero_padded 4 (year d) ++ "-" ++ zero_padded 2 (month d)
                          ++ "-" ++ zero_padded 2 (day d))
                         (zero_padded 4 (year next) ++ "-" ++ zero_padded 2 (month next)
                          ++ "-" ++ zero_padded 2 (day next))
                         (YFinanceCollector.interval yf)),
     w)
  /\ days_from_civil (year next) (month next) (day next)
     = days_from_civil (year d) (month d) (day d) + 1
  /\ 1 <= month next <= 12 /\ 1 <= day next <= 31.
Proof.
  intros next. split.
  - unfold YFinanceCollector.collect, bindM, lift, ret.
    change (strftime "%Y-%m-%d" d)
      with (zero_padded 4 (year d) ++ "-" ++ zero_padded 2 (month d)
            ++ "-" ++ zero_padded 2 (day d)).
    change (strftime "%Y-%m-%d" (add_days d 1))
      with (zero_padded 4 (year next) ++ "-" ++ zero_padded 2 (month next)
            ++ "-" ++ zero_padded 2 (day next)).
    destruct (history _ _ _ _); reflexivity.
  - unfold next, add_days. apply days_of_civil_from_days.
Qed.
